(** * PriceCrawl: the search page and the aggregation contract it consumes

    The React front end (SearchForm, SearchPage, ResultsList and the wire
    types of [types.ts]) is embedded from its TypeScript source.  The
    FastAPI back end that answers [POST /search] is not part of the
    TypeScript sources; the parts of it that the front end relies on are
    modelled from the design document and marked as such. *)

From Stdlib Require Import QArith Ascii DecimalString.
From stdpp Require Import base option list gmap sorting strings.

Local Open Scope N_scope.

(** ** Strings

    A JavaScript string is a sequence of UTF-16 code units.  Literals of
    the source that are plain ASCII are written with [lit]. *)

Definition jsstring := list N.

Definition lit (s : string) : jsstring :=
  (fun a => N_of_ascii a) <$> String.list_ascii_of_string s.

(** ECMAScript WhiteSpace and LineTerminator code points; all of them lie
    in the basic plane, so each is one code unit. *)
Definition isWhiteSpace (c : N) : bool :=
  (c =? 0x09) || (c =? 0x0A) || (c =? 0x0B) || (c =? 0x0C) || (c =? 0x0D)
  || (c =? 0x20) || (c =? 0xA0) || (c =? 0x1680)
  || ((0x2000 <=? c) && (c <=? 0x200A))
  || (c =? 0x2028) || (c =? 0x2029) || (c =? 0x202F) || (c =? 0x205F)
  || (c =? 0x3000) || (c =? 0xFEFF).

Fixpoint trimStart (s : jsstring) : jsstring :=
  match s with
  | [] => []
  | c :: rest => if isWhiteSpace c then trimStart rest else s
  end.

Definition trimEnd (s : jsstring) : jsstring :=
  reverse (trimStart (reverse s)).

(** [String.prototype.trim] *)
Definition trim (s : jsstring) : jsstring := trimEnd (trimStart s).

(** Truthiness of a string: only the empty string is falsy. *)
Definition truthy (s : jsstring) : bool :=
  match s with [] => false | _ :: _ => true end.

(** [Number.prototype.toString] on a non-negative integer. *)
Definition numberToString (n : N) : jsstring :=
  lit (NilZero.string_of_uint (N.to_uint n)).

(** *** [JSON.stringify] on the one object the page serialises *)

Definition hexDigit (d : N) : N := if d <? 10 then 48 + d else 87 + d.

(** [\uXXXX] with four lower-case hexadecimal digits. *)
Definition unicodeEscape (c : N) : jsstring :=
  [92; 117; hexDigit (c / 4096 mod 16); hexDigit (c / 256 mod 16);
   hexDigit (c / 16 mod 16); hexDigit (c mod 16)].

Definition isLeadingSurrogate (c : N) : bool := (0xD800 <=? c) && (c <=? 0xDBFF).
Definition isTrailingSurrogate (c : N) : bool := (0xDC00 <=? c) && (c <=? 0xDFFF).

(** One code unit that is not the first half of a well-formed pair. *)
Definition quoteUnit (c : N) : jsstring :=
  if c =? 8 then [92; 98]
  else if c =? 9 then [92; 116]
  else if c =? 10 then [92; 110]
  else if c =? 12 then [92; 102]
  else if c =? 13 then [92; 114]
  else if c =? 34 then [92; 34]
  else if c =? 92 then [92; 92]
  else if (c <? 32) || isLeadingSurrogate c || isTrailingSurrogate c
       then unicodeEscape c
  else [c].

Fixpoint quoteUnits (s : jsstring) : jsstring :=
  match s with
  | [] => []
  | c :: rest =>
      if isLeadingSurrogate c then
        match rest with
        | d :: rest' =>
            if isTrailingSurrogate d then c :: d :: quoteUnits rest'
            else unicodeEscape c ++ quoteUnits rest
        | [] => unicodeEscape c
        end
      else quoteUnit c ++ quoteUnits rest
  end.

(** QuoteJSONString of ECMA-262. *)
Definition QuoteJSONString (s : jsstring) : jsstring :=
  [34] ++ quoteUnits s ++ [34].

(** [JSON.stringify({ query: searchQuery })] *)
Definition JSON_stringify_query (searchQuery : jsstring) : jsstring :=
  [123] ++ QuoteJSONString (lit "query") ++ [58]
        ++ QuoteJSONString searchQuery ++ [125].

(** ** Wire types ([types.ts])

    [price] is a JSON number; it is modelled as a rational, which covers
    every decimal price and keeps the order on prices exact. *)

Record SearchResult := {
  sku : jsstring;
  name : jsstring;
  retailer : jsstring;
  price : Q;
  currency : jsstring;
  url : option jsstring
}.

Record AdapterError := {
  adapter : jsstring;
  error : jsstring
}.

Record SearchResponse := {
  results : list SearchResult;
  errors : list AdapterError
}.

(** What [await response.json()] hands to the page at run time.  The
    declared type is [SearchResponse]; a field that is [null] or absent in
    the parsed object is [None].  A body that parses to [null] makes the
    first property access raise a TypeError whose text the engine picks. *)
Record ParsedObject := {
  results_field : option (list SearchResult);
  errors_field : option (list AdapterError)
}.

Inductive ParsedBody :=
  | NullBody (typeErrorMessage : jsstring)
  | ObjectBody (data : ParsedObject).

(** ** Promises, exceptions and the fetch interface *)

(** A thrown value: an [Error] instance with its message, or anything else. *)
Inductive Thrown :=
  | ErrorInstance (message : jsstring)
  | OtherValue.

Inductive Settled (A : Type) :=
  | Fulfilled (a : A)
  | Rejected (e : Thrown).
Arguments Fulfilled {A} a.
Arguments Rejected {A} e.

Record RequestInit := {
  method : jsstring;
  headers : list (jsstring * jsstring);
  body : jsstring
}.

(** A [Response]: its status and what calling [json()] on it settles to. *)
Record Response := {
  status : N;
  json : Settled ParsedBody
}.

(** The [ok] getter of the Fetch standard: the status is in 200..299. *)
Definition ok (response : Response) : bool :=
  (200 <=? status response) && (status response <=? 299).

(** Calls that leave the component and can be observed from outside. *)
Inductive Event :=
  | PreventDefault
  | FetchCall (input : jsstring) (init : RequestInit)
  | JsonCall (response : Response).

(** ** Asynchronous handlers

    A handler is a finite tree: it returns, throws, updates the component
    state, performs an observable call, or awaits a promise and goes on with
    what the promise settled to. *)
Inductive Async (S A : Type) : Type :=
  | Return (a : A)
  | Throw (e : Thrown)
  | Update (f : S -> S) (k : Async S A)
  | Perform (ev : Event) (k : Async S A)
  | AwaitFetch (input : jsstring) (init : RequestInit)
               (k : Settled Response -> Async S A)
  | AwaitJson (response : Response) (k : Settled ParsedBody -> Async S A).
Arguments Return {S A} a.
Arguments Throw {S A} e.
Arguments Update {S A} f k.
Arguments Perform {S A} ev k.
Arguments AwaitFetch {S A} input init k.
Arguments AwaitJson {S A} response k.

Fixpoint bind {S A B} (m : Async S A) (f : A -> Async S B) : Async S B :=
  match m with
  | Return a => f a
  | Throw e => Throw e
  | Update g k => Update g (bind k f)
  | Perform ev k => Perform ev (bind k f)
  | AwaitFetch input init k => AwaitFetch input init (fun s => bind (k s) f)
  | AwaitJson response k => AwaitJson response (fun s => bind (k s) f)
  end.

Notation "x <- m ;; k" := (bind m (fun x => k))
  (at level 100, m at next level, right associativity).
Notation "m ;; k" := (bind m (fun _ => k))
  (at level 100, right associativity).

(** [try { m } catch (err) { handler err }] *)
Fixpoint try_catch {S A} (m : Async S A) (handler : Thrown -> Async S A)
  : Async S A :=
  match m with
  | Return a => Return a
  | Throw e => handler e
  | Update g k => Update g (try_catch k handler)
  | Perform ev k => Perform ev (try_catch k handler)
  | AwaitFetch input init k =>
      AwaitFetch input init (fun s => try_catch (k s) handler)
  | AwaitJson response k =>
      AwaitJson response (fun s => try_catch (k s) handler)
  end.

(** [try { m } finally { cleanup }]: the cleanup runs on both exits and the
    exit of [m] is kept unless the cleanup itself throws. *)
Fixpoint finally {S A} (m : Async S A) (cleanup : Async S unit) : Async S A :=
  match m with
  | Return a => cleanup ;; Return a
  | Throw e => cleanup ;; Throw e
  | Update g k => Update g (finally k cleanup)
  | Perform ev k => Perform ev (finally k cleanup)
  | AwaitFetch input init k =>
      AwaitFetch input init (fun s => finally (k s) cleanup)
  | AwaitJson response k =>
      AwaitJson response (fun s => finally (k s) cleanup)
  end.

Definition settle {S A} (s : Settled A) : Async S A :=
  match s with
  | Fulfilled a => Return a
  | Rejected e => Throw e
  end.

(** [await fetch(input, init)] *)
Definition fetch {S} (input : jsstring) (init : RequestInit) : Async S Response :=
  AwaitFetch input init settle.

(** [await response.json()] *)
Definition response_json {S} (response : Response) : Async S ParsedBody :=
  AwaitJson response settle.

Definition setState {S} (f : S -> S) : Async S unit := Update f (Return tt).

Definition when_ {S} (b : bool) (m : Async S unit) : Async S unit :=
  if b then m else Return tt.

(** Running a handler against a network: state updates apply in order,
    every outside call is logged, [fetch] settles to what the network gives
    for the request and [json()] to what the response carries. *)
Fixpoint run {S A} (network : jsstring -> RequestInit -> Settled Response)
    (m : Async S A) (st : S) : Settled A * S * list Event :=
  match m with
  | Return a => (Fulfilled a, st, [])
  | Throw e => (Rejected e, st, [])
  | Update f k => run network k (f st)
  | Perform ev k =>
      let '(r, st', evs) := run network k st in (r, st', ev :: evs)
  | AwaitFetch input init k =>
      let '(r, st', evs) := run network (k (network input init)) st in
      (r, st', FetchCall input init :: evs)
  | AwaitJson response k =>
      let '(r, st', evs) := run network (k (json response)) st in
      (r, st', JsonCall response :: evs)
  end.

(** The state a handler has written when it first suspends on a promise
    (or ends without suspending): what the component renders meanwhile. *)
Fixpoint runUntilAwait {S A} (m : Async S A) (st : S) : S :=
  match m with
  | Update f k => runUntilAwait k (f st)
  | Perform _ k => runUntilAwait k st
  | _ => st
  end.

(** ** SearchForm.tsx *)

Definition preventDefault {S} : Async S unit := Perform PreventDefault (Return tt).

(** [handleSubmit]: the callback runs only for an input whose trimmed form is
    not the empty string, and receives the trimmed form. *)
Definition handleSubmit {S} (onSearch : jsstring -> Async S unit)
    (inputValue : jsstring) : Async S unit :=
  preventDefault ;;
  if negb (truthy (trim inputValue)) then Return tt
  else onSearch (trim inputValue).

(** ** SearchPage.tsx *)

(** The five [useState] cells of the page. *)
Record PageState := {
  st_query : jsstring;
  st_results : option (list SearchResult);
  st_loading : bool;
  st_error : option jsstring;
  st_adapterErrors : list AdapterError
}.

Definition initialState : PageState :=
  {| st_query := []; st_results := None; st_loading := false;
     st_error := None; st_adapterErrors := [] |}.

Definition setQuery (q : jsstring) : Async PageState unit :=
  setState (fun st => {| st_query := q; st_results := st_results st;
                         st_loading := st_loading st; st_error := st_error st;
                         st_adapterErrors := st_adapterErrors st |}).
Definition setResults (r : option (list SearchResult)) : Async PageState unit :=
  setState (fun st => {| st_query := st_query st; st_results := r;
                         st_loading := st_loading st; st_error := st_error st;
                         st_adapterErrors := st_adapterErrors st |}).
Definition setLoading (b : bool) : Async PageState unit :=
  setState (fun st => {| st_query := st_query st; st_results := st_results st;
                         st_loading := b; st_error := st_error st;
                         st_adapterErrors := st_adapterErrors st |}).
Definition setError (e : option jsstring) : Async PageState unit :=
  setState (fun st => {| st_query := st_query st; st_results := st_results st;
                         st_loading := st_loading st; st_error := e;
                         st_adapterErrors := st_adapterErrors st |}).
Definition setAdapterErrors (l : list AdapterError) : Async PageState unit :=
  setState (fun st => {| st_query := st_query st; st_results := st_results st;
                         st_loading := st_loading st; st_error := st_error st;
                         st_adapterErrors := l |}).

(** The request the page sends for a search string. *)
Definition searchInit (searchQuery : jsstring) : RequestInit :=
  {| method := lit "POST";
     headers := [(lit "Content-Type", lit "application/json")];
     body := JSON_stringify_query searchQuery |}.

(** Reading [data.results] / [data.errors]; on a [null] body the read throws. *)
Definition get_results (data : ParsedBody) : Async PageState (option (list SearchResult)) :=
  match data with
  | NullBody msg => Throw (ErrorInstance msg)
  | ObjectBody o => Return (results_field o)
  end.
Definition get_errors (data : ParsedBody) : Async PageState (option (list AdapterError)) :=
  match data with
  | NullBody msg => Throw (ErrorInstance msg)
  | ObjectBody o => Return (errors_field o)
  end.

(** [value || []] on a list that may be [null] or [undefined]. *)
Definition or_empty {A} (value : option (list A)) : list A :=
  match value with
  | Some l => l
  | None => []
  end.

(** [err instanceof Error ? err.message : 'An unexpected error occurred'] *)
Definition errorMessage (err : Thrown) : jsstring :=
  match err with
  | ErrorInstance message => message
  | OtherValue => lit "An unexpected error occurred"
  end.

Definition handleSearch (searchQuery : jsstring) : Async PageState unit :=
  setQuery searchQuery ;;
  setLoading true ;;
  setError None ;;
  setAdapterErrors [] ;;
  finally
    (try_catch
       (response <- fetch (lit "/search") (searchInit searchQuery) ;;
        when_ (negb (ok response))
          (Throw (ErrorInstance
             (lit "Search failed with status " ++ numberToString (status response)))) ;;
        data <- response_json response ;;
        r <- get_results data ;;
        setResults (Some (or_empty r)) ;;
        e <- get_errors data ;;
        setAdapterErrors (or_empty e))
       (fun err =>
          setResults None ;;
          setError (Some (errorMessage err)) ;;
          setAdapterErrors []))
    (setLoading false).

(** Submitting the form of the page: [<SearchForm onSearch={handleSearch}>]. *)
Definition submitSearchForm (inputValue : jsstring) : Async PageState unit :=
  handleSubmit handleSearch inputValue.

(** ** ResultsList.tsx

    The element returned by the component, one constructor per [return]
    of the source, carrying the values that are interpolated into it. *)

Record NoticeLine := {
  notice_key : jsstring;
  notice_adapter : jsstring;
  notice_message : jsstring
}.

Record ResultItem := {
  item_key : jsstring;
  item_name : jsstring;
  item_retailer : jsstring;
  item_currency : jsstring;
  item_price : Q;
  item_sku : jsstring;
  item_link : option jsstring
}.

Inductive EmptyMessage :=
  | NoResultsFound (query : jsstring)
  | SearchPrompt.

Inductive View :=
  | LoadingStatus
  | ErrorAlert (message : jsstring)
  | EmptyPane (adapterErrorNotice : option (list NoticeLine)) (message : EmptyMessage)
  | ResultsSection (adapterErrorNotice : option (list NoticeLine))
                   (items : list ResultItem).

Definition renderNoticeLine (e : AdapterError) : NoticeLine :=
  {| notice_key := adapter e; notice_adapter := adapter e;
     notice_message := error e |}.

(** [result.url && <a href={result.url}>]: a link only for a non-empty url. *)
Definition renderLink (u : option jsstring) : option jsstring :=
  match u with
  | Some href => if truthy href then Some href else None
  | None => None
  end.

Definition renderItem (result : SearchResult) : ResultItem :=
  {| item_key := retailer result ++ lit "-" ++ sku result;
     item_name := name result;
     item_retailer := retailer result;
     item_currency := currency result;
     item_price := price result;
     item_sku := sku result;
     item_link := renderLink (url result) |}.

Definition ResultsList (query : jsstring) (results : option (list SearchResult))
    (isLoading : bool) (error : option jsstring)
    (adapterErrors : list AdapterError) : View :=
  if isLoading then LoadingStatus
  else
    match error with
    | Some (c :: message) => ErrorAlert (c :: message)
    | _ =>
        let adapterErrorNotice :=
          if (0 <? length adapterErrors)%nat
          then Some (renderNoticeLine <$> adapterErrors) else None in
        match results with
        | None | Some [] =>
            EmptyPane adapterErrorNotice
              (if truthy query then NoResultsFound query else SearchPrompt)
        | Some (r :: rs) =>
            ResultsSection adapterErrorNotice (renderItem <$> (r :: rs))
        end
    end.

(** What [SearchPage] passes to [ResultsList]. *)
Definition renderPage (st : PageState) : View :=
  ResultsList (st_query st) (st_results st) (st_loading st) (st_error st)
              (st_adapterErrors st).

Definition viewItems (v : View) : list ResultItem :=
  match v with
  | ResultsSection _ items => items
  | _ => []
  end.

Definition viewNotice (v : View) : list NoticeLine :=
  match v with
  | EmptyPane (Some lines) _ | ResultsSection (Some lines) _ => lines
  | _ => []
  end.

(** ** The aggregation engine behind [POST /search]

    The Python service (adapters, Orchestrator, Aggregator, Response
    Assembler) is outside the TypeScript sources.  Each definition of this
    part follows the design document, sections 3, 4 and 6, and says which
    missing component it stands for. *)

(** Modelled from the spec: the PriceQuote entity of the missing service;
    its wire shape is the [SearchResult] interface of [types.ts], so the
    record is shared. *)
Abbreviation PriceQuote := SearchResult (only parsing).

(** Modelled from the spec: the dedup key [(retailer, sku)] of the missing
    Aggregator. *)
Definition quoteKey (q : PriceQuote) : jsstring * jsstring :=
  (retailer q, sku q).

(** Modelled from the spec: the lexicographic order on strings that the
    missing Aggregator breaks ties with, character code by character code. *)
Fixpoint compareStrings (a b : jsstring) : comparison :=
  match a, b with
  | [], [] => Eq
  | [], _ :: _ => Lt
  | _ :: _, [] => Gt
  | x :: a', y :: b' =>
      match x ?= y with
      | Eq => compareStrings a' b'
      | c => c
      end
  end.

(** Modelled from the spec: lexicographic combination of two comparison
    results, for the missing Aggregator's sort key. *)
Definition lexCompare (c1 c2 : comparison) : comparison :=
  match c1 with
  | Eq => c2
  | c => c
  end.

(** Modelled from the spec: the output order of the missing Aggregator,
    ascending by price, ties broken by retailer, then by sku. *)
Definition compareQuotes (a b : PriceQuote) : comparison :=
  lexCompare (price a ?= price b)%Q
    (lexCompare (compareStrings (retailer a) (retailer b))
                (compareStrings (sku a) (sku b))).

(** Modelled from the spec: "comes no later than" in the missing
    Aggregator's output order. *)
Definition quote_le (a b : PriceQuote) : Prop := compareQuotes a b <> Gt.

#[global] Instance quote_le_dec a b : Decision (quote_le a b).
Proof. unfold quote_le. destruct (compareQuotes a b); [left|left|right]; congruence. Defined.

(** Modelled from the spec: one step of the missing Aggregator's
    deduplication.  A
    quote replaces the one kept for its key only when it is strictly
    cheaper, so that on a price tie the first one seen stays. *)
Definition keepCheapest (best : gmap (jsstring * jsstring) PriceQuote)
    (q : PriceQuote) : gmap (jsstring * jsstring) PriceQuote :=
  match best !! quoteKey q with
  | Some kept =>
      match (price q ?= price kept)%Q with
      | Lt => <[quoteKey q := q]> best
      | _ => best
      end
  | None => <[quoteKey q := q]> best
  end.

(** Modelled from the spec: the missing Aggregator's deduplication, over
    the quotes in adapter-then-emission order. *)
Definition dedupe (quotes : list PriceQuote) : gmap (jsstring * jsstring) PriceQuote :=
  foldl keepCheapest ∅ quotes.

(** Modelled from the spec: the missing Aggregator, deduplication followed
    by the price ordering. *)
Definition aggregate (quotes : list PriceQuote) : list PriceQuote :=
  merge_sort quote_le (snd <$> map_to_list (dedupe quotes)).

(** Modelled from the spec: the terminal state that one adapter's unit of
    work reaches under the missing Orchestrator's deadline (section 4.2). *)
Inductive Terminal :=
  | Succeeded (quotes : list PriceQuote)
  | Failed (cause : jsstring)
  | TimedOut.

(** Modelled from the spec: the Adapter contract (section 4.1) of the
    missing service; [Search] gives the terminal state the adapter's unit of
    work reaches for a query. *)
Record Adapter := {
  Name : jsstring;
  Search : jsstring -> Terminal
}.

(** Modelled from the spec: an outcome held by the missing Orchestrator,
    quotes or a failure cause. *)
Inductive Outcome :=
  | Quotes (quotes : list PriceQuote)
  | Failure (cause : jsstring).

(** Modelled from the spec: the missing Orchestrator reports a timeout as
    a failure whose cause is "timeout". *)
Definition outcomeOf (t : Terminal) : Outcome :=
  match t with
  | Succeeded quotes => Quotes quotes
  | Failed cause => Failure cause
  | TimedOut => Failure (lit "timeout")
  end.

(** Modelled from the spec: the missing Orchestrator waits for every
    adapter and yields the outcomes keyed by adapter name, in registration
    order. *)
Definition orchestrate (registry : list Adapter) (query : jsstring)
  : list (jsstring * Outcome) :=
  (fun a => (Name a, outcomeOf (Search a query))) <$> registry.

(** Modelled from the spec: the input of the missing Aggregator, the quotes
    of the successful adapters, adapter by adapter, each in emission order. *)
Definition successfulQuotes (outcomes : list (jsstring * Outcome)) : list PriceQuote :=
  concat ((fun o => match o.2 with Quotes qs => qs | Failure _ => [] end) <$> outcomes).

(** Modelled from the spec: the [errors] list of the missing Response
    Assembler, the failure subset of the outcomes projected to
    [{adapter, error}] in registration order (section 4.4). *)
Definition failureEntries (outcomes : list (jsstring * Outcome)) : list AdapterError :=
  omap (fun o => match o.2 with
                 | Quotes _ => None
                 | Failure cause => Some {| adapter := o.1; error := cause |}
                 end) outcomes.

(** Modelled from the spec: the missing Response Assembler. *)
Definition assemble (outcomes : list (jsstring * Outcome)) : SearchResponse :=
  {| results := aggregate (successfulQuotes outcomes);
     errors := failureEntries outcomes |}.

(** Modelled from the spec: the core of the missing service, as invoked
    for a validated request. *)
Definition search (registry : list Adapter) (query : jsstring) : SearchResponse :=
  assemble (orchestrate registry query).

(** Modelled from the spec: the success response of the missing HTTP
    layer (section 6), status 200 with a body holding [results] and
    [errors], as the page's [fetch] receives it. *)
Definition httpSuccess (r : SearchResponse) : Response :=
  {| status := 200;
     json := Fulfilled (ObjectBody {| results_field := Some (results r);
                                      errors_field := Some (errors r) |}) |}.

(** ** Notions used to state the properties *)

(** A three-way comparison that behaves as a total preorder. *)
Record Comparator {A} (cmp : A -> A -> comparison) : Prop := {
  cmp_antisym : forall x y, cmp y x = CompOpp (cmp x y);
  cmp_lt_trans : forall x y z, cmp x y = Lt -> cmp y z = Lt -> cmp x z = Lt;
  cmp_eq_l : forall x y z, cmp x y = Eq -> cmp x z = cmp y z
}.

(** [q] sits in [quotes] at a place where every earlier quote with its key
    is strictly dearer and every later one is at least as dear: it is the
    first of the cheapest quotes for its key. *)
Definition FirstCheapest (quotes : list PriceQuote) (q : PriceQuote) : Prop :=
  exists before after,
    quotes = before ++ q :: after /\
    (forall q', q' ∈ before -> quoteKey q' = quoteKey q -> (price q < price q')%Q) /\
    (forall q', q' ∈ after -> quoteKey q' = quoteKey q -> (price q <= price q')%Q).

(** The state a search attempt leaves behind when it fails with [message]. *)
Definition failedState (searchQuery message : jsstring) : PageState :=
  {| st_query := searchQuery; st_results := None; st_loading := false;
     st_error := Some message; st_adapterErrors := [] |}.

(** The state a search attempt leaves behind when the body was consumed. *)
Definition loadedState (searchQuery : jsstring) (o : ParsedObject) : PageState :=
  {| st_query := searchQuery; st_results := Some (or_empty (results_field o));
     st_loading := false; st_error := None;
     st_adapterErrors := or_empty (errors_field o) |}.

(** The events of a log that are calls to [fetch]. *)
Definition fetchCalls (evs : list Event) : list (jsstring * RequestInit) :=
  omap (fun ev => match ev with
                  | FetchCall input init => Some (input, init)
                  | _ => None
                  end) evs.

(** The events of a log that are calls to [response.json()]. *)
Definition jsonCalls (evs : list Event) : list Response :=
  omap (fun ev => match ev with
                  | JsonCall response => Some response
                  | _ => None
                  end) evs.

(** The entries of an error list that name a given adapter. *)
Definition entriesOf (adapterName : jsstring) (errs : list AdapterError)
  : list AdapterError :=
  filter (fun e => adapter e = adapterName) errs.

(** The error entry an adapter's outcome projects to, if it failed. *)
Definition entryOf (a : Adapter) (query : jsstring) : option AdapterError :=
  match outcomeOf (Search a query) with
  | Quotes _ => None
  | Failure cause => Some {| adapter := Name a; error := cause |}
  end.

(** The quotes an adapter's outcome holds, none if it failed. *)
Definition quotesOf (a : Adapter) (query : jsstring) : list PriceQuote :=
  match outcomeOf (Search a query) with
  | Quotes quotes => quotes
  | Failure _ => []
  end.

(** ** Sample data

    The quotes, adapters and responses of the scenarios in the design
    document and in [SearchPage.test.tsx]. *)

Definition sampleQuote (r s : string) (p : Q) : PriceQuote :=
  {| sku := lit s; name := lit "Noise Cancelling Headphones"; retailer := lit r;
     price := p; currency := lit "HKD"; url := Some (lit "https://example.com/product") |}.

(** Adapter A reports sku 1 three times, at 100, at 90 and at 90 again. *)
Definition adapterA : Adapter :=
  {| Name := lit "A";
     Search := fun _ => Succeeded [sampleQuote "A" "1" 100; sampleQuote "A" "2" (5 # 2);
                                   sampleQuote "A" "1" 90; sampleQuote "A" "1" (180 # 2)] |}.
Definition adapterB : Adapter :=
  {| Name := lit "B";
     Search := fun _ => Succeeded [sampleQuote "B" "1" 90; sampleQuote "B" "0" 90] |}.
Definition adapterY : Adapter :=
  {| Name := lit "Y"; Search := fun _ => Failed (lit "HTTP 403") |}.
Definition adapterZ : Adapter :=
  {| Name := lit "Z"; Search := fun _ => TimedOut |}.

Definition sampleRegistry : list Adapter := [adapterA; adapterY; adapterB; adapterZ].
Definition failingRegistry : list Adapter := [adapterY; adapterZ].

(** The input " camera " typed into the form, and an input of blanks. *)
Definition paddedInput : jsstring := [32] ++ lit "camera" ++ [32].
Definition blankInput : jsstring := [32; 9; 0xA0].

(** A server that answers every request with status 500. *)
Definition serverError : jsstring -> RequestInit -> Settled Response :=
  fun _ _ => Fulfilled {| status := 500; json := Rejected OtherValue |}.

(** A server that answers every request with the given parsed body. *)
Definition serverOk (o : ParsedObject) : jsstring -> RequestInit -> Settled Response :=
  fun _ _ => Fulfilled {| status := 200; json := Fulfilled (ObjectBody o) |}.

(** A server whose core runs the failing registry on the query " camera "
    trims to. *)
Definition serverAllFailed : jsstring -> RequestInit -> Settled Response :=
  fun _ _ => Fulfilled (httpSuccess (search failingRegistry (trim paddedInput))).

(** A page left over from an earlier, successful search. *)
Definition staleState : PageState :=
  {| st_query := lit "webcam"; st_results := Some [sampleQuote "A" "1" 100];
     st_loading := false; st_error := None;
     st_adapterErrors := [{| adapter := lit "Y"; error := lit "HTTP 403" |}] |}.

(** ** Sessions and overlapping attempts *)

(** One form submission on the page, run until its request has settled,
    against the network of that moment. *)
Definition submitAndSettle (st : PageState)
    (step : jsstring * (jsstring -> RequestInit -> Settled Response)) : PageState :=
  (run step.2 (submitSearchForm step.1) st).1.2.

(** The page after a series of submissions made one after the other, from
    the freshly mounted page. *)
Definition session
    (steps : list (jsstring * (jsstring -> RequestInit -> Settled Response)))
  : PageState :=
  foldl submitAndSettle initialState steps.

(** A handler runs without interruption until it awaits: [advance] gives
    the state it has written by then and the handler as it stands, suspended
    on a promise or finished. *)
Fixpoint advance {S A} (m : Async S A) (st : S) : S * Async S A :=
  match m with
  | Update f k => advance k (f st)
  | Perform _ k => advance k st
  | _ => (st, m)
  end.

(** The promise of a handler suspended on [fetch] settles. *)
Definition resumeFetch {S A} (m : Async S A) (answer : Settled Response)
  : Async S A :=
  match m with
  | AwaitFetch _ _ k => k answer
  | _ => m
  end.

(** The promise of a handler suspended on [response.json()] settles. *)
Definition resumeJson {S A} (m : Async S A) : Async S A :=
  match m with
  | AwaitJson response k => k (json response)
  | _ => m
  end.

(** ** The earlier ResultsList

    The revision of [ResultsList.tsx] that precedes the [adapterErrors]
    prop: same branches, no notice, and the empty branch returns the
    paragraph itself. *)




(** ** Reading a quoted string back

    The inverse of the escapes that [QuoteJSONString] writes, used to show
    that the request body determines the query. *)

Definition unhexDigit (h : N) : N := if h <? 58 then h - 48 else h - 87.

Definition unescapeUnit (e : N) : N :=
  if e =? 98 then 8
  else if e =? 116 then 9
  else if e =? 110 then 10
  else if e =? 102 then 12
  else if e =? 114 then 13
  else e.

Fixpoint unquoteUnits (t : jsstring) : jsstring :=
  match t with
  | [] => []
  | c :: rest =>
      if c =? 92 then
        match rest with
        | [] => []
        | e :: rest' =>
            if e =? 117 then
              match rest' with
              | h1 :: h2 :: h3 :: h4 :: rest'' =>
                  (4096 * unhexDigit h1 + 256 * unhexDigit h2
                   + 16 * unhexDigit h3 + unhexDigit h4) :: unquoteUnits rest''
              | _ => []
              end
            else unescapeUnit e :: unquoteUnits rest'
        end
      else c :: unquoteUnits rest
  end.

(** * Properties *)

(** ** Order on strings and on quotes *)

Lemma compareStrings_refl a : compareStrings a a = Eq.
Proof. induction a as [|x a IH]; simpl; [done|]. by rewrite N.compare_refl. Qed.

Lemma compareStrings_eq a b : compareStrings a b = Eq -> a = b.
Proof.
  revert b. induction a as [|x a IH]; intros [|y b]; simpl; try done.
  destruct (N.compare_spec x y) as [->| |]; try done.
  intros H. f_equal. by apply IH.
Qed.

Lemma compareStrings_antisym a b :
  compareStrings b a = CompOpp (compareStrings a b).
Proof.
  revert b. induction a as [|x a IH]; intros [|y b]; simpl; try done.
  rewrite (N.compare_antisym x y).
  destruct (x ?= y); simpl; auto.
Qed.

Lemma compareStrings_lt_trans a b c :
  compareStrings a b = Lt -> compareStrings b c = Lt -> compareStrings a c = Lt.
Proof.
  revert b c. induction a as [|x a IH]; intros [|y b] [|z c]; simpl; try done.
  destruct (N.compare_spec x y), (N.compare_spec y z), (N.compare_spec x z);
    subst; try done; try lia; eauto.
Qed.

Lemma compareStrings_Comparator : Comparator compareStrings.
Proof.
  split.
  - intros x y. apply compareStrings_antisym.
  - apply compareStrings_lt_trans.
  - intros x y z H. by rewrite (compareStrings_eq _ _ H).
Qed.

Lemma Qcompare_Comparator : Comparator Qcompare.
Proof.
  split.
  - intros x y. symmetry. apply Qcompare_antisym.
  - intros x y z. rewrite <- !Qlt_alt. apply Qlt_trans.
  - intros x y z H. apply Qeq_alt in H. by rewrite H.
Qed.

Section comparators.
Context {A : Type} (cmp cmp' : A -> A -> comparison).
Context (Hcmp : Comparator cmp) (Hcmp' : Comparator cmp').

Lemma cmp_eq_r x y z : cmp y z = Eq -> cmp x y = cmp x z.
Proof.
  intros H. rewrite (cmp_antisym cmp Hcmp y x), (cmp_antisym cmp Hcmp z x).
  f_equal. by apply (cmp_eq_l cmp Hcmp).
Qed.

Lemma cmp_le_trans x y z : cmp x y <> Gt -> cmp y z <> Gt -> cmp x z <> Gt.
Proof.
  intros Hxy Hyz.
  destruct (cmp x y) eqn:E1; [| |done].
  - by rewrite (cmp_eq_l cmp Hcmp x y z E1).
  - destruct (cmp y z) eqn:E2; [| |done].
    + by rewrite <- (cmp_eq_r x y z E2), E1.
    + by rewrite (cmp_lt_trans cmp Hcmp x y z E1 E2).
Qed.

Lemma cmp_total x y : cmp x y <> Gt \/ cmp y x <> Gt.
Proof.
  rewrite (cmp_antisym cmp Hcmp x y).
  destruct (cmp x y); simpl; auto.
Qed.

Lemma lexCompare_Comparator :
  Comparator (fun x y => lexCompare (cmp x y) (cmp' x y)).
Proof.
  split.
  - intros x y. rewrite (cmp_antisym cmp Hcmp x y), (cmp_antisym cmp' Hcmp' x y).
    by destruct (cmp x y).
  - intros x y z.
    destruct (cmp x y) eqn:E1; simpl; [| |done].
    + rewrite (cmp_eq_l cmp Hcmp x y z E1).
      destruct (cmp y z); simpl; [|done..].
      apply (cmp_lt_trans cmp' Hcmp').
    + intros _. destruct (cmp y z) eqn:E2; simpl; [| |done].
      * by rewrite <- (cmp_eq_r x y z E2), E1.
      * by rewrite (cmp_lt_trans cmp Hcmp x y z E1 E2).
  - intros x y z.
    destruct (cmp x y) eqn:E1; simpl; [|done..].
    intros E2. by rewrite (cmp_eq_l cmp Hcmp x y z E1), (cmp_eq_l cmp' Hcmp' x y z E2).
Qed.
End comparators.

Lemma Comparator_on {A B} (f : B -> A) (cmp : A -> A -> comparison) :
  Comparator cmp -> Comparator (fun x y => cmp (f x) (f y)).
Proof.
  intros [H1 H2 H3]. split; intros; eauto.
Qed.

Lemma compareQuotes_Comparator : Comparator compareQuotes.
Proof.
  apply (lexCompare_Comparator
           (fun a b => Qcompare (price a) (price b))
           (fun a b => lexCompare (compareStrings (retailer a) (retailer b))
                                  (compareStrings (sku a) (sku b)))).
  - apply (Comparator_on price), Qcompare_Comparator.
  - apply (lexCompare_Comparator
             (fun a b => compareStrings (retailer a) (retailer b))
             (fun a b => compareStrings (sku a) (sku b)));
      [apply (Comparator_on retailer) | apply (Comparator_on sku)];
      apply compareStrings_Comparator.
Qed.

#[global] Instance quote_le_transitive : Transitive quote_le.
Proof. intros x y z. apply (cmp_le_trans _ compareQuotes_Comparator). Qed.

#[global] Instance quote_le_total : Total quote_le.
Proof. intros x y. apply (cmp_total _ compareQuotes_Comparator). Qed.

(** What [quote_le] says in terms of the fields. *)
Lemma quote_le_fields a b :
  quote_le a b ->
  (price a <= price b)%Q /\
  ((price a == price b)%Q ->
     compareStrings (retailer a) (retailer b) = Lt \/
     (retailer a = retailer b /\ compareStrings (sku a) (sku b) <> Gt)).
Proof.
  unfold quote_le, compareQuotes, lexCompare. intros H.
  destruct (price a ?= price b)%Q eqn:E.
  - apply Qeq_alt in E. split; [by apply Qle_lteq; right|]. intros _.
    destruct (compareStrings (retailer a) (retailer b)) eqn:E'; [| |done].
    + right. split; [by apply compareStrings_eq | done].
    + by left.
  - apply Qlt_alt in E. split; [by apply Qlt_le_weak|].
    intros Heq. rewrite Heq in E. by apply Qlt_irrefl in E.
  - done.
Qed.

(** ** Deduplication *)

Lemma FirstCheapest_elem quotes q : FirstCheapest quotes q -> q ∈ quotes.
Proof. intros (before & after & -> & _). set_solver. Qed.

Lemma FirstCheapest_le quotes q q' :
  FirstCheapest quotes q -> q' ∈ quotes -> quoteKey q' = quoteKey q ->
  (price q <= price q')%Q.
Proof.
  intros (before & after & -> & Hb & Ha) Hin Hk.
  apply elem_of_app in Hin as [Hin|Hin].
  - apply Qlt_le_weak. by apply Hb.
  - apply elem_of_cons in Hin as [->|Hin]; [apply Qle_refl | by apply Ha].
Qed.

Lemma FirstCheapest_snoc quotes q x :
  FirstCheapest quotes q ->
  (quoteKey x = quoteKey q -> (price q <= price x)%Q) ->
  FirstCheapest (quotes ++ [x]) q.
Proof.
  intros (before & after & -> & Hb & Ha) Hx.
  exists before, (after ++ [x]). split; [by rewrite <- app_assoc|].
  split; [done|]. intros q' Hin Hk.
  apply elem_of_app in Hin as [Hin|Hin]; [by apply Ha|].
  apply list_elem_of_singleton in Hin as ->. by apply Hx.
Qed.

Lemma dedupe_snoc quotes x :
  dedupe (quotes ++ [x]) = keepCheapest (dedupe quotes) x.
Proof. unfold dedupe. by rewrite foldl_app. Qed.

(** What the map holds for a key once all quotes are folded in. *)
Lemma dedupe_lookup quotes k :
  match dedupe quotes !! k with
  | Some q => quoteKey q = k /\ FirstCheapest quotes q
  | None => forall q', q' ∈ quotes -> quoteKey q' <> k
  end.
Proof.
  revert k. induction quotes as [|x quotes IH] using rev_ind; intros k.
  { unfold dedupe. simpl. rewrite lookup_empty. intros q' H. by apply elem_of_nil in H. }
  rewrite dedupe_snoc. unfold keepCheapest.
  assert (Hother : quoteKey x <> k ->
            match dedupe quotes !! k with
            | Some q => quoteKey q = k /\ FirstCheapest (quotes ++ [x]) q
            | None => forall q', q' ∈ quotes ++ [x] -> quoteKey q' <> k
            end).
  { intros Hne. specialize (IH k). destruct (dedupe quotes !! k) as [q|].
    - destruct IH as [Hk Hq]. split; [done|].
      apply FirstCheapest_snoc; [done|]. intros Hx. congruence.
    - intros q' Hin. apply elem_of_app in Hin as [Hin|Hin]; [by apply IH|].
      by apply list_elem_of_singleton in Hin as ->. }
  pose proof (IH (quoteKey x)) as IHx.
  destruct (dedupe quotes !! quoteKey x) as [kept|] eqn:Ekept.
  - destruct IHx as [Hkept Hfc].
    destruct (price x ?= price kept)%Q eqn:Ecmp.
    + destruct (decide (quoteKey x = k)) as [<-|Hne]; [|by apply Hother].
      rewrite Ekept. split; [done|].
      apply FirstCheapest_snoc; [done|]. intros _.
      apply Qeq_alt in Ecmp. rewrite Ecmp. apply Qle_refl.
    + destruct (decide (quoteKey x = k)) as [<-|Hne].
      * rewrite lookup_insert_eq. split; [done|].
        exists quotes, []. split; [done|]. split.
        -- intros q' Hin Hk. apply Qlt_alt in Ecmp.
           eapply Qlt_le_trans; [exact Ecmp|].
           apply (FirstCheapest_le quotes); [done..|congruence].
        -- intros q' Hin. by apply elem_of_nil in Hin.
      * rewrite lookup_insert_ne by done. by apply Hother.
    + destruct (decide (quoteKey x = k)) as [<-|Hne]; [|by apply Hother].
      rewrite Ekept. split; [done|].
      apply FirstCheapest_snoc; [done|]. intros _.
      apply Qgt_alt in Ecmp. by apply Qlt_le_weak.
  - destruct (decide (quoteKey x = k)) as [<-|Hne].
    + rewrite lookup_insert_eq. split; [done|].
      exists quotes, []. split; [done|]. split.
      * intros q' Hin Hk. by destruct (IHx q' Hin).
      * intros q' Hin. by apply elem_of_nil in Hin.
    + rewrite lookup_insert_ne by done. by apply Hother.
Qed.

Lemma dedupe_key quotes k q : dedupe quotes !! k = Some q -> quoteKey q = k.
Proof. intros H. pose proof (dedupe_lookup quotes k) as L. rewrite H in L. tauto. Qed.

Lemma elem_of_aggregate quotes q :
  q ∈ aggregate quotes <-> dedupe quotes !! quoteKey q = Some q.
Proof.
  unfold aggregate. rewrite merge_sort_Permutation, list_elem_of_fmap. split.
  - intros ([k q'] & -> & Hin). apply elem_of_map_to_list in Hin. simpl.
    by rewrite (dedupe_key _ _ _ Hin).
  - intros H. exists (quoteKey q, q). split; [done|]. by apply elem_of_map_to_list.
Qed.

Lemma aggregate_FirstCheapest quotes q :
  q ∈ aggregate quotes -> FirstCheapest quotes q.
Proof.
  intros H. apply elem_of_aggregate in H.
  pose proof (dedupe_lookup quotes (quoteKey q)) as L. rewrite H in L. tauto.
Qed.

Lemma aggregate_covers quotes q' :
  q' ∈ quotes -> exists q, q ∈ aggregate quotes /\ quoteKey q = quoteKey q'.
Proof.
  intros Hin. pose proof (dedupe_lookup quotes (quoteKey q')) as L.
  destruct (dedupe quotes !! quoteKey q') as [q|] eqn:E.
  - exists q. destruct L as [Hk _]. split; [|done].
    apply elem_of_aggregate. by rewrite Hk.
  - by destruct (L q' Hin).
Qed.

Lemma aggregate_NoDup_keys quotes : NoDup (quoteKey <$> aggregate quotes).
Proof.
  unfold aggregate. rewrite merge_sort_Permutation.
  assert ((quoteKey <$> (snd <$> map_to_list (dedupe quotes)))
          = (map_to_list (dedupe quotes)).*1) as ->.
  { rewrite <- list_fmap_compose. apply list_fmap_ext.
    intros i [k q] Hin. apply list_elem_of_lookup_2, elem_of_map_to_list in Hin.
    simpl. by apply dedupe_key in Hin. }
  apply NoDup_fst_map_to_list.
Qed.

Lemma aggregate_StronglySorted quotes : StronglySorted quote_le (aggregate quotes).
Proof. apply (StronglySorted_merge_sort quote_le). Qed.

Lemma StronglySorted_lookup {A} (R : relation A) l i j a b :
  StronglySorted R l -> (i < j)%nat -> l !! i = Some a -> l !! j = Some b -> R a b.
Proof.
  intros Hs. revert i j. induction Hs as [|x l Hs IH Hall]; intros i j Hij Hi Hj.
  { by rewrite lookup_nil in Hi. }
  destruct j as [|j]; [lia|]. simpl in Hj.
  destruct i as [|i]; simpl in Hi.
  - injection Hi as ->. rewrite Forall_forall in Hall. apply Hall.
    by eapply list_elem_of_lookup_2.
  - apply (IH i j); [lia|done..].
Qed.

(** ** Orchestration and assembly *)

Lemma successfulQuotes_orchestrate registry query :
  successfulQuotes (orchestrate registry query)
  = concat ((fun a => quotesOf a query) <$> registry).
Proof.
  unfold successfulQuotes, orchestrate. f_equal.
  rewrite <- list_fmap_compose. done.
Qed.

Lemma failureEntries_orchestrate registry query :
  failureEntries (orchestrate registry query)
  = omap (fun a => entryOf a query) registry.
Proof.
  unfold failureEntries, orchestrate.
  induction registry as [|a registry IH]; csimpl; [done|].
  rewrite IH. unfold entryOf. by destruct (outcomeOf (Search a query)).
Qed.

Lemma entryOf_adapter a query e : entryOf a query = Some e -> adapter e = Name a.
Proof.
  unfold entryOf. destruct (outcomeOf (Search a query)); [done|].
  by intros [= <-].
Qed.

Lemma failure_names_sublist registry query :
  sublist (adapter <$> omap (fun a => entryOf a query) registry) (Name <$> registry).
Proof.
  induction registry as [|a registry IH]; csimpl; [constructor|].
  destruct (entryOf a query) as [e|] eqn:E; csimpl.
  - rewrite (entryOf_adapter _ _ _ E). by constructor.
  - by constructor.
Qed.

Lemma entriesOf_absent registry query n :
  n ∉ Name <$> registry ->
  entriesOf n (omap (fun a => entryOf a query) registry) = [].
Proof.
  unfold entriesOf. induction registry as [|a registry IH]; csimpl; [done|].
  intros Hn. apply not_elem_of_cons in Hn as [Hne Hn].
  destruct (entryOf a query) as [e|] eqn:E; csimpl; [|by apply IH].
  rewrite filter_cons_False; [by apply IH|].
  rewrite (entryOf_adapter _ _ _ E). congruence.
Qed.

Lemma entriesOf_registered registry query a :
  NoDup (Name <$> registry) -> a ∈ registry ->
  entriesOf (Name a) (omap (fun a => entryOf a query) registry)
  = match entryOf a query with Some e => [e] | None => [] end.
Proof.
  induction registry as [|b registry IH]; csimpl.
  { intros _ H. by apply elem_of_nil in H. }
  intros Hnd Hin. apply NoDup_cons in Hnd as [Hb Hnd].
  apply elem_of_cons in Hin as [->|Hin].
  - pose proof (entriesOf_absent registry query (Name b) Hb) as Hrest.
    unfold entriesOf in *.
    destruct (entryOf b query) as [e|] eqn:E; csimpl; [|done].
    rewrite filter_cons_True by (by apply entryOf_adapter in E).
    by rewrite Hrest.
  - assert (Name b <> Name a) as Hne.
    { intros Heq. apply Hb. rewrite Heq. by apply list_elem_of_fmap_2. }
    specialize (IH Hnd Hin). unfold entriesOf in *.
    destruct (entryOf b query) as [e|] eqn:E; csimpl; [|done].
    rewrite filter_cons_False; [done|].
    by rewrite (entryOf_adapter _ _ _ E).
Qed.

Lemma quotesOf_emitted registry query a q :
  a ∈ registry -> q ∈ quotesOf a query ->
  q ∈ successfulQuotes (orchestrate registry query).
Proof.
  intros Ha Hq. rewrite successfulQuotes_orchestrate.
  apply list_elem_of_In, in_concat. exists (quotesOf a query).
  split; [|by apply list_elem_of_In].
  by apply list_elem_of_In, (list_elem_of_fmap_2 (fun a => quotesOf a query)).
Qed.

(** ** The aggregation contract *)

(** C1. In every response of the aggregation core no two entries of
    [results] have the same (retailer, sku) pair.  Every entry is a quote
    that a successful adapter emitted, none of the emitted quotes with its
    pair is cheaper, and those emitted before it, in adapter order and then
    emission order, are strictly dearer: on a price tie the first one seen
    is the survivor.  Every emitted pair has a survivor. *)
Theorem results_deduplicated registry query :
  let emitted := successfulQuotes (orchestrate registry query) in
  let response := search registry query in
  NoDup (quoteKey <$> results response) /\
  (forall q, q ∈ results response ->
     (forall q', q' ∈ emitted -> quoteKey q' = quoteKey q ->
        (price q <= price q')%Q) /\
     exists before after, emitted = before ++ q :: after /\
       forall q', q' ∈ before -> quoteKey q' = quoteKey q ->
         (price q < price q')%Q) /\
  (forall q', q' ∈ emitted ->
     exists q, q ∈ results response /\ quoteKey q = quoteKey q').
Proof.
  simpl. split; [apply aggregate_NoDup_keys|]. split.
  - intros q Hq. apply aggregate_FirstCheapest in Hq. split.
    + intros q' Hin Hk. by apply (FirstCheapest_le _ _ _ Hq).
    + destruct Hq as (before & after & E & Hb & _). by exists before, after.
  - intros q' Hin. by apply aggregate_covers.
Qed.

(** C2. In every response of the aggregation core [results] is ascending
    by price, and of two entries with equal price the earlier one has the
    smaller (retailer, sku) pair in lexicographic order. *)
Theorem results_sorted registry query i j a b :
  results (search registry query) !! i = Some a ->
  results (search registry query) !! j = Some b ->
  (i < j)%nat ->
  (price a <= price b)%Q /\
  ((price a == price b)%Q ->
     compareStrings (retailer a) (retailer b) = Lt \/
     (retailer a = retailer b /\ compareStrings (sku a) (sku b) = Lt)).
Proof.
  simpl. intros Hi Hj Hij.
  pose proof (StronglySorted_lookup quote_le _ i j a b
                (aggregate_StronglySorted _) Hij Hi Hj) as Hle.
  apply quote_le_fields in Hle as [Hp Htie]. split; [done|].
  intros Heq. destruct (Htie Heq) as [Hlt|[Hr Hs]]; [by left|right].
  split; [done|].
  destruct (compareStrings (sku a) (sku b)) eqn:E; [|done..].
  apply compareStrings_eq in E.
  assert (i = j); [|lia].
  apply (NoDup_lookup
           (quoteKey <$> aggregate (successfulQuotes (orchestrate registry query)))
           i j (quoteKey a)).
  - apply aggregate_NoDup_keys.
  - by rewrite list_lookup_fmap, Hi.
  - rewrite list_lookup_fmap, Hj. simpl. unfold quoteKey. by rewrite Hr, E.
Qed.

(** C3. With adapter names unique across the registry, every registered
    adapter shows up in the response exactly once: a failed adapter (a
    timeout included) has exactly one entry in [errors], carrying its name
    and cause; a successful adapter has no entry in [errors] and each quote
    it emitted is represented in [results] by an entry with the same
    (retailer, sku) pair at a price that is not higher.  No two entries of
    [errors] name the same adapter. *)
Theorem every_adapter_once registry query a :
  NoDup (Name <$> registry) -> a ∈ registry ->
  let response := search registry query in
  NoDup (adapter <$> errors response) /\
  match outcomeOf (Search a query) with
  | Quotes quotes =>
      entriesOf (Name a) (errors response) = [] /\
      forall q, q ∈ quotes ->
        exists r, r ∈ results response /\ quoteKey r = quoteKey q /\
                  (price r <= price q)%Q
  | Failure cause =>
      entriesOf (Name a) (errors response)
      = [{| adapter := Name a; error := cause |}]
  end.
Proof.
  intros Hnd Ha. simpl. rewrite failureEntries_orchestrate. split.
  { eapply sublist_NoDup; [exact Hnd | apply failure_names_sublist]. }
  rewrite (entriesOf_registered registry query a Hnd Ha).
  pose proof (quotesOf_emitted registry query a) as Hem.
  unfold entryOf, quotesOf in *.
  destruct (outcomeOf (Search a query)) as [quotes|cause]; [|done].
  split; [done|]. intros q Hq. specialize (Hem q Ha Hq).
  destruct (aggregate_covers _ _ Hem) as (r & Hr & Hk).
  exists r. split; [done|]. split; [done|].
  apply aggregate_FirstCheapest in Hr.
  by apply (FirstCheapest_le _ _ _ Hr).
Qed.

(** ** The search page *)

(** One search attempt, by the way the request settles. *)
Lemma run_handleSearch network searchQuery st :
  run network (handleSearch searchQuery) st =
  let call := FetchCall (lit "/search") (searchInit searchQuery) in
  match network (lit "/search") (searchInit searchQuery) with
  | Rejected e =>
      (Fulfilled tt, failedState searchQuery (errorMessage e), [call])
  | Fulfilled response =>
      if ok response then
        match json response with
        | Rejected e =>
            (Fulfilled tt, failedState searchQuery (errorMessage e),
             [call; JsonCall response])
        | Fulfilled (NullBody message) =>
            (Fulfilled tt, failedState searchQuery message,
             [call; JsonCall response])
        | Fulfilled (ObjectBody o) =>
            (Fulfilled tt, loadedState searchQuery o, [call; JsonCall response])
        end
      else
        (Fulfilled tt,
         failedState searchQuery
           (lit "Search failed with status " ++ numberToString (status response)),
         [call])
  end.
Proof.
  unfold handleSearch.
  cbn -[lit searchInit numberToString ok].
  destruct (network (lit "/search") (searchInit searchQuery)) as [response|e];
    cbn -[lit searchInit numberToString ok]; [|done].
  destruct (ok response); cbn -[lit searchInit numberToString]; [|done].
  destruct (json response) as [[message|o]|e]; done.
Qed.

(** While the request is in flight the pane shows the loading status,
    whatever the page held before. *)
Lemma handleSearch_loading searchQuery st :
  st_loading (runUntilAwait (handleSearch searchQuery) st) = true /\
  renderPage (runUntilAwait (handleSearch searchQuery) st) = LoadingStatus.
Proof. done. Qed.

(** Whatever way an attempt ends, a recorded error comes with no results
    and no adapter errors. *)
Lemma handleSearch_error_excludes_results network searchQuery st :
  let st' := (run network (handleSearch searchQuery) st).1.2 in
  st_error st' <> None -> st_results st' = None /\ st_adapterErrors st' = [].
Proof.
  cbv zeta. rewrite run_handleSearch. cbv zeta.
  destruct (network _ _) as [response|e]; [|done].
  destruct (ok response); [|done].
  by destruct (json response) as [[message|o]|e].
Qed.

(** A search attempt never rejects: the handler's promise is fulfilled. *)
Lemma handleSearch_fulfilled network searchQuery st :
  (run network (handleSearch searchQuery) st).1.1 = Fulfilled tt.
Proof.
  rewrite run_handleSearch. cbv zeta.
  destruct (network _ _) as [response|e]; [|done].
  destruct (ok response); [|done].
  by destruct (json response) as [[message|o]|e].
Qed.

(** Exactly one request leaves the page per attempt. *)
Lemma handleSearch_fetchCalls network searchQuery st :
  fetchCalls (run network (handleSearch searchQuery) st).2
  = [(lit "/search", searchInit searchQuery)].
Proof.
  rewrite run_handleSearch. cbv zeta.
  destruct (network _ _) as [response|e]; [|done].
  destruct (ok response); [|done].
  by destruct (json response) as [[message|o]|e].
Qed.

Lemma run_perform {S A} network ev (k : Async S A) st :
  run network (Perform ev k) st
  = ((run network k st).1.1, (run network k st).1.2, ev :: (run network k st).2).
Proof. simpl. by destruct (run network k st) as [[r st'] evs]. Qed.

Lemma handleSubmit_blank {S} (onSearch : jsstring -> Async S unit) inputValue :
  trim inputValue = [] -> handleSubmit onSearch inputValue = preventDefault.
Proof. unfold handleSubmit. intros ->. done. Qed.

Lemma handleSubmit_search {S} (onSearch : jsstring -> Async S unit) inputValue :
  trim inputValue <> [] ->
  handleSubmit onSearch inputValue
  = Perform PreventDefault (onSearch (trim inputValue)).
Proof. unfold handleSubmit. destruct (trim inputValue); done. Qed.

(** ** Trimming *)

Lemma trimStart_fixed c s : isWhiteSpace c = false -> trimStart (c :: s) = c :: s.
Proof. simpl. by intros ->. Qed.

Lemma trimStart_head c s : trimStart s = c :: drop 1 (trimStart s) -> isWhiteSpace c = false.
Proof.
  induction s as [|x s IH]; simpl; [done|].
  destruct (isWhiteSpace x) eqn:E; [done|]. by intros [= <-].
Qed.

Lemma trimStart_suffix s : exists prefix, s = prefix ++ trimStart s.
Proof.
  induction s as [|x s [p IH]]; simpl; [by exists []|].
  destruct (isWhiteSpace x); [|by exists []].
  exists (x :: p). simpl. by f_equal.
Qed.

Lemma trimStart_idempotent s : trimStart (trimStart s) = trimStart s.
Proof.
  induction s as [|x s IH]; simpl; [done|].
  destruct (isWhiteSpace x) eqn:E; [done|]. simpl. by rewrite E.
Qed.

(** The trimmed form has no white space left at either end. *)
Lemma trim_ends s :
  match trim s with
  | [] => True
  | c :: _ => isWhiteSpace c = false
  end /\
  match reverse (trim s) with
  | [] => True
  | c :: _ => isWhiteSpace c = false
  end.
Proof.
  unfold trim, trimEnd. rewrite reverse_involutive.
  set (t := trimStart s).
  assert (Ht : match t with [] => True | c :: _ => isWhiteSpace c = false end).
  { subst t. destruct (trimStart s) as [|c r] eqn:E; [done|].
    apply (trimStart_head c s). by rewrite E. }
  set (u := trimStart (reverse t)).
  assert (Hu : match u with [] => True | c :: _ => isWhiteSpace c = false end).
  { subst u. destruct (trimStart (reverse t)) as [|c r] eqn:E; [done|].
    apply (trimStart_head c (reverse t)). by rewrite E. }
  split; [|done].
  destruct (trimStart_suffix (reverse t)) as [p Hp]. fold u in Hp.
  apply (f_equal reverse) in Hp. rewrite reverse_involutive, reverse_app in Hp.
  destruct (reverse u) as [|c r] eqn:E; [done|].
  rewrite Hp in Ht. exact Ht.
Qed.

Lemma trim_idempotent s : trim (trim s) = trim s.
Proof.
  destruct (trim_ends s) as [H1 H2].
  unfold trim at 1. unfold trimEnd.
  destruct (trim s) as [|c r] eqn:E; [done|].
  rewrite (trimStart_fixed c r H1).
  destruct (reverse (c :: r)) as [|d r'] eqn:E'.
  { apply (f_equal reverse) in E'. by rewrite reverse_involutive in E'. }
  rewrite (trimStart_fixed d r' H2), <- E'. by rewrite reverse_involutive.
Qed.

(** A code unit that [JSON.stringify] copies unchanged. *)
Lemma quoteUnit_plain c :
  32 <= c -> c <> 34 -> c <> 92 ->
  isLeadingSurrogate c = false -> isTrailingSurrogate c = false ->
  quoteUnit c = [c].
Proof.
  intros H32 H34 H92 Hl Ht. unfold quoteUnit. rewrite Hl, Ht.
  repeat match goal with
         | |- context [?x =? ?y] => destruct (N.eqb_spec x y); [lia|]
         end.
  destruct (N.ltb_spec c 32); [lia|done].
Qed.

Lemma QuoteJSONString_plain s :
  Forall (fun c => 32 <= c /\ c <> 34 /\ c <> 92 /\
                   isLeadingSurrogate c = false /\
                   isTrailingSurrogate c = false) s ->
  QuoteJSONString s = [34] ++ s ++ [34].
Proof.
  intros H. unfold QuoteJSONString. do 2 f_equal.
  induction H as [|c s (H32 & H34 & H92 & Hl & Ht) _ IH]; simpl; [done|].
  by rewrite Hl, (quoteUnit_plain c), IH.
Qed.

(** The request body of the test suite's search for headphones. *)
Example headphones_body :
  body (searchInit (lit "headphones"))
  = lit "{" ++ [34] ++ lit "query" ++ [34] ++ lit ":"
    ++ [34] ++ lit "headphones" ++ [34] ++ lit "}".
Proof. reflexivity. Qed.

(** ** The page's side of the contract *)

(** C4. Submitting the form with an input whose trimmed form is empty
    invokes no search callback, whatever the callback is, and on the page
    leaves the state as it was with no call to [fetch]; with an input whose
    trimmed form is not empty the callback is invoked once, with the trimmed
    string, and on the page exactly one request goes out, carrying the
    trimmed string as the query. *)
Theorem submit_dispatches_trimmed {S} (onSearch : jsstring -> Async S unit)
    network inputValue st :
  (trim inputValue = [] ->
     handleSubmit onSearch inputValue = preventDefault /\
     run network (submitSearchForm inputValue) st
     = (Fulfilled tt, st, [PreventDefault])) /\
  (trim inputValue <> [] ->
     handleSubmit onSearch inputValue
     = Perform PreventDefault (onSearch (trim inputValue)) /\
     fetchCalls (run network (submitSearchForm inputValue) st).2
     = [(lit "/search", searchInit (trim inputValue))] /\
     st_query (run network (submitSearchForm inputValue) st).1.2
     = trim inputValue).
Proof.
  split; intros H.
  - split; [by apply handleSubmit_blank|].
    unfold submitSearchForm. by rewrite handleSubmit_blank.
  - split; [by apply handleSubmit_search|].
    unfold submitSearchForm. rewrite handleSubmit_search by done.
    rewrite run_perform. cbn [fst snd]. split.
    + change (fetchCalls (PreventDefault :: ?l)) with (fetchCalls l).
      apply handleSearch_fetchCalls.
    + rewrite run_handleSearch. cbv zeta.
      destruct (network _ _) as [response|e]; [|done].
      destruct (ok response); [|done].
      by destruct (json response) as [[message|o]|e].
Qed.

(** C5. Every search sends exactly one request: [fetch] is called with
    ['/search'], method [POST], the single header [Content-Type:
    application/json], and as body the JSON text of an object whose only
    member is [query], holding the search string; when the string needs no
    escaping the body is the string itself between the quotes. *)
Theorem search_request_shape network searchQuery st :
  fetchCalls (run network (handleSearch searchQuery) st).2
  = [(lit "/search",
      {| method := lit "POST";
         headers := [(lit "Content-Type", lit "application/json")];
         body := lit "{" ++ [34] ++ lit "query" ++ [34] ++ lit ":"
                 ++ QuoteJSONString searchQuery ++ lit "}" |})] /\
  (Forall (fun c => 32 <= c /\ c <> 34 /\ c <> 92 /\
                    isLeadingSurrogate c = false /\
                    isTrailingSurrogate c = false) searchQuery ->
   body (searchInit searchQuery)
   = lit "{" ++ [34] ++ lit "query" ++ [34] ++ lit ":"
     ++ [34] ++ searchQuery ++ [34] ++ lit "}").
Proof.
  split.
  - rewrite run_handleSearch. cbv zeta.
    destruct (network _ _) as [response|e]; [|done].
    destruct (ok response); [|done].
    by destruct (json response) as [[message|o]|e].
  - intros Hplain. unfold searchInit, JSON_stringify_query. cbn [body].
    rewrite (QuoteJSONString_plain searchQuery Hplain).
    cbn. by rewrite <- !app_assoc.
Qed.

(** C6. On a 2xx response whose body parses to an object with a [results]
    list and an [errors] list, the page parses the body once, stores both
    lists as they came, records no error, and renders one item per result
    and one notice line per adapter error. *)
Theorem success_body_consumed network searchQuery st code rs es :
  200 <= code <= 299 ->
  network (lit "/search") (searchInit searchQuery)
  = Fulfilled {| status := code;
                 json := Fulfilled (ObjectBody {| results_field := Some rs;
                                                  errors_field := Some es |}) |} ->
  let out := run network (handleSearch searchQuery) st in
  out.1.1 = Fulfilled tt /\
  out.1.2 = {| st_query := searchQuery; st_results := Some rs;
               st_loading := false; st_error := None;
               st_adapterErrors := es |} /\
  length (jsonCalls out.2) = 1%nat /\
  viewItems (renderPage out.1.2) = renderItem <$> rs /\
  viewNotice (renderPage out.1.2) = renderNoticeLine <$> es.
Proof.
  intros Hcode Hnet. cbv zeta. rewrite run_handleSearch, Hnet. cbv zeta.
  assert (ok {| status := code;
                json := Fulfilled (ObjectBody {| results_field := Some rs;
                                                 errors_field := Some es |}) |}
          = true) as ->.
  { unfold ok. simpl. apply andb_true_iff. split; apply N.leb_le; lia. }
  cbn [json fst snd loadedState results_field errors_field or_empty].
  repeat split.
  - unfold renderPage, ResultsList. cbn [st_loading st_error st_results].
    by destruct rs.
  - unfold renderPage, ResultsList. cbn [st_loading st_error st_results st_adapterErrors].
    by destruct es, rs.
Qed.

(** C7. On a response outside 2xx the page never calls [json()] on it: it
    stores the one message "Search failed with status <status>", clears
    results and adapter errors, and renders the alert with that message. *)
Theorem non_2xx_is_generic_failure network searchQuery st response :
  ok response = false ->
  network (lit "/search") (searchInit searchQuery) = Fulfilled response ->
  let out := run network (handleSearch searchQuery) st in
  let message := lit "Search failed with status " ++ numberToString (status response) in
  out.1.1 = Fulfilled tt /\
  out.1.2 = failedState searchQuery message /\
  jsonCalls out.2 = [] /\
  renderPage out.1.2 = ErrorAlert message.
Proof.
  intros Hok Hnet. cbv zeta. rewrite run_handleSearch, Hnet. cbv zeta.
  rewrite Hok. done.
Qed.

(** C9. After a search attempt that fails, by a rejected [fetch] or by a
    response outside 2xx, and whatever the state was before, the error is
    set, the results are [null] and the adapter-error list is empty; the
    rendered pane shows no result item and no adapter-error line. *)
Theorem failed_attempt_clears_results network searchQuery st :
  match network (lit "/search") (searchInit searchQuery) with
  | Rejected _ => True
  | Fulfilled response => ok response = false
  end ->
  let st' := (run network (handleSearch searchQuery) st).1.2 in
  st_error st' <> None /\
  st_results st' = None /\
  st_adapterErrors st' = [] /\
  viewItems (renderPage st') = [] /\
  viewNotice (renderPage st') = [].
Proof.
  intros Hfail. cbv zeta. rewrite run_handleSearch. cbv zeta.
  destruct (network _ _) as [response|e].
  - rewrite Hfail. done.
  - cbn [fst snd]. repeat split; try done.
    + unfold renderPage, failedState, ResultsList; simpl.
      by destruct (errorMessage e).
    + unfold renderPage, failedState, ResultsList; simpl.
      by destruct (errorMessage e).
Qed.

(** C10. On a 2xx response whose body parses to an object in which
    [results] or [errors] is [null] or absent, the page puts the empty list
    in place of the missing field, keeps a field that is present, records
    no error and does not render the alert. *)
Theorem missing_field_defaults_to_empty network searchQuery st code o :
  200 <= code <= 299 ->
  network (lit "/search") (searchInit searchQuery)
  = Fulfilled {| status := code; json := Fulfilled (ObjectBody o) |} ->
  let out := run network (handleSearch searchQuery) st in
  out.1.1 = Fulfilled tt /\
  st_error out.1.2 = None /\
  st_loading out.1.2 = false /\
  (results_field o = None -> st_results out.1.2 = Some []) /\
  (errors_field o = None -> st_adapterErrors out.1.2 = []) /\
  (forall rs, results_field o = Some rs -> st_results out.1.2 = Some rs) /\
  (forall es, errors_field o = Some es -> st_adapterErrors out.1.2 = es) /\
  forall message, renderPage out.1.2 <> ErrorAlert message.
Proof.
  intros Hcode Hnet. cbv zeta. rewrite run_handleSearch, Hnet. cbv zeta.
  assert (ok {| status := code; json := Fulfilled (ObjectBody o) |} = true) as ->.
  { unfold ok. simpl. apply andb_true_iff. split; apply N.leb_le; lia. }
  cbn [json fst snd loadedState st_error st_loading st_results st_adapterErrors].
  repeat split; try done.
  - by intros ->.
  - by intros ->.
  - by intros rs ->.
  - by intros es ->.
  - intros message. unfold renderPage, ResultsList; simpl.
    by destruct (or_empty (results_field o)).
Qed.

(** ** Total failure, end to end *)

Lemma aggregate_nil : aggregate [] = [].
Proof. unfold aggregate, dedupe. simpl. by rewrite map_to_list_empty. Qed.

Lemma all_failed_quotes registry query :
  (forall a, a ∈ registry -> exists cause, outcomeOf (Search a query) = Failure cause) ->
  successfulQuotes (orchestrate registry query) = [].
Proof.
  rewrite successfulQuotes_orchestrate.
  induction registry as [|a registry IH]; intros H; csimpl; [done|].
  rewrite IH by (intros b Hb; apply H; by right).
  destruct (H a) as [cause Hc]; [by left|].
  unfold quotesOf. by rewrite Hc.
Qed.

Lemma all_failed_entries registry query :
  (forall a, a ∈ registry -> exists cause, outcomeOf (Search a query) = Failure cause) ->
  Forall2 (fun a e => adapter e = Name a /\
                      outcomeOf (Search a query) = Failure (error e))
          registry (failureEntries (orchestrate registry query)).
Proof.
  rewrite failureEntries_orchestrate.
  induction registry as [|a registry IH]; intros H; csimpl; [constructor|].
  destruct (H a) as [cause Hc]; [by left|].
  unfold entryOf at 1. rewrite Hc. constructor; [done|].
  apply IH. intros b Hb. apply H. by right.
Qed.

(** C8. When every adapter of a non-empty registry fails, the core still
    produces a response, sent with HTTP status 200: [results] is empty and
    [errors] holds one entry per adapter, in registration order, with its
    name and cause.  The page, given that response for the search it
    dispatched, records no request error and renders the pane with the
    adapter-error notice, one line per entry, and the no-results message
    for the query, not the alert. *)
Theorem total_failure_is_degraded_success registry network inputValue st :
  registry <> [] ->
  trim inputValue <> [] ->
  (forall a, a ∈ registry ->
     exists cause, outcomeOf (Search a (trim inputValue)) = Failure cause) ->
  let response := search registry (trim inputValue) in
  network (lit "/search") (searchInit (trim inputValue))
  = Fulfilled (httpSuccess response) ->
  let st' := (run network (submitSearchForm inputValue) st).1.2 in
  ok (httpSuccess response) = true /\
  results response = [] /\
  Forall2 (fun a e => adapter e = Name a /\
                      outcomeOf (Search a (trim inputValue)) = Failure (error e))
          registry (errors response) /\
  st_error st' = None /\
  renderPage st'
  = EmptyPane (Some (renderNoticeLine <$> errors response))
              (NoResultsFound (trim inputValue)).
Proof.
  intros Hreg Hq Hfail response Hnet st'.
  assert (Hres : results response = []).
  { subst response. simpl. by rewrite all_failed_quotes, aggregate_nil. }
  pose proof (all_failed_entries registry (trim inputValue) Hfail) as Herr.
  change (failureEntries _) with (errors response) in Herr.
  split; [done|]. split; [done|]. split; [done|].
  subst st'. unfold submitSearchForm. rewrite handleSubmit_search by done.
  rewrite run_perform, run_handleSearch, Hnet. cbv zeta.
  change (ok (httpSuccess response)) with true.
  cbn [httpSuccess json fst snd loadedState results_field errors_field or_empty
       st_error].
  split; [done|].
  unfold renderPage, ResultsList.
  cbn [st_loading st_error st_results st_adapterErrors st_query].
  rewrite Hres.
  destruct (errors response) as [|e es] eqn:E.
  { apply Forall2_nil_inv_r in Herr. done. }
  destruct (trim inputValue); done.
Qed.

(** ** The theorems at the sample data *)

Lemma results_sorted_witness :
  results (search sampleRegistry (lit "headphones")) !! 1%nat
    = Some (sampleQuote "A" "1" 90) /\
  results (search sampleRegistry (lit "headphones")) !! 2%nat
    = Some (sampleQuote "B" "0" 90) /\
  (1 < 2)%nat /\
  (price (sampleQuote "A" "1" 90) <= price (sampleQuote "B" "0" 90))%Q /\
  ((price (sampleQuote "A" "1" 90) == price (sampleQuote "B" "0" 90))%Q ->
     compareStrings (retailer (sampleQuote "A" "1" 90))
                    (retailer (sampleQuote "B" "0" 90)) = Lt \/
     (retailer (sampleQuote "A" "1" 90) = retailer (sampleQuote "B" "0" 90) /\
      compareStrings (sku (sampleQuote "A" "1" 90))
                     (sku (sampleQuote "B" "0" 90)) = Lt)).
Proof.
  assert (H1 : results (search sampleRegistry (lit "headphones")) !! 1%nat
               = Some (sampleQuote "A" "1" 90)) by (vm_compute; reflexivity).
  assert (H2 : results (search sampleRegistry (lit "headphones")) !! 2%nat
               = Some (sampleQuote "B" "0" 90)) by (vm_compute; reflexivity).
  assert (H3 : (1 < 2)%nat) by lia.
  split; [exact H1|]. split; [exact H2|]. split; [exact H3|].
  exact (results_sorted sampleRegistry (lit "headphones") 1 2 _ _ H1 H2 H3).
Defined.

Lemma every_adapter_once_witness :
  NoDup (Name <$> sampleRegistry) /\
  adapterY ∈ sampleRegistry /\
  NoDup (adapter <$> errors (search sampleRegistry (lit "headphones"))) /\
  entriesOf (Name adapterY) (errors (search sampleRegistry (lit "headphones")))
  = [{| adapter := lit "Y"; error := lit "HTTP 403" |}].
Proof.
  assert (H1 : NoDup (Name <$> sampleRegistry)).
  { apply (bool_decide_unpack _). vm_compute. exact I. }
  assert (H2 : adapterY ∈ sampleRegistry).
  { apply list_elem_of_further, list_elem_of_here. }
  split; [exact H1|]. split; [exact H2|].
  exact (every_adapter_once sampleRegistry (lit "headphones") adapterY H1 H2).
Defined.

Lemma submit_dispatches_trimmed_witness :
  trim blankInput = [] /\
  trim paddedInput <> [] /\
  run serverError (submitSearchForm blankInput) staleState
  = (Fulfilled tt, staleState, [PreventDefault]) /\
  fetchCalls (run serverError (submitSearchForm paddedInput) staleState).2
  = [(lit "/search", searchInit (lit "camera"))].
Proof.
  assert (H1 : trim blankInput = []) by (vm_compute; reflexivity).
  assert (H2 : trim paddedInput <> []) by (vm_compute; discriminate).
  split; [exact H1|]. split; [exact H2|]. split.
  - exact (proj2 (proj1 (submit_dispatches_trimmed handleSearch serverError
                           blankInput staleState) H1)).
  - exact (proj1 (proj2 (proj2 (submit_dispatches_trimmed handleSearch serverError
                                  paddedInput staleState) H2))).
Defined.

Lemma success_body_consumed_witness :
  200 <= 200 <= 299 /\
  let out := run (serverOk {| results_field := Some [sampleQuote "A" "1" 90];
                              errors_field := Some [{| adapter := lit "Y";
                                                       error := lit "HTTP 403" |}] |})
                 (handleSearch (lit "headphones")) initialState in
  out.1.1 = Fulfilled tt /\
  out.1.2 = {| st_query := lit "headphones";
               st_results := Some [sampleQuote "A" "1" 90];
               st_loading := false; st_error := None;
               st_adapterErrors := [{| adapter := lit "Y"; error := lit "HTTP 403" |}] |} /\
  length (jsonCalls out.2) = 1%nat /\
  viewItems (renderPage out.1.2) = renderItem <$> [sampleQuote "A" "1" 90] /\
  viewNotice (renderPage out.1.2)
  = renderNoticeLine <$> [{| adapter := lit "Y"; error := lit "HTTP 403" |}].
Proof.
  assert (H1 : 200 <= 200 <= 299) by lia.
  split; [exact H1|].
  exact (success_body_consumed
           (serverOk {| results_field := Some [sampleQuote "A" "1" 90];
                        errors_field := Some [{| adapter := lit "Y";
                                                 error := lit "HTTP 403" |}] |})
           (lit "headphones") initialState 200 _ _ H1 eq_refl).
Defined.

Lemma non_2xx_is_generic_failure_witness :
  ok {| status := 500; json := Rejected OtherValue |} = false /\
  let out := run serverError (handleSearch (lit "webcam")) staleState in
  out.1.1 = Fulfilled tt /\
  out.1.2 = failedState (lit "webcam") (lit "Search failed with status 500") /\
  jsonCalls out.2 = [] /\
  renderPage out.1.2 = ErrorAlert (lit "Search failed with status 500").
Proof.
  assert (H1 : ok {| status := 500; json := Rejected OtherValue |} = false)
    by reflexivity.
  split; [exact H1|].
  exact (non_2xx_is_generic_failure serverError (lit "webcam") staleState
           {| status := 500; json := Rejected OtherValue |} H1 eq_refl).
Defined.

Lemma failed_attempt_clears_results_witness :
  let st' := (run serverError (handleSearch (lit "webcam")) staleState).1.2 in
  st_error st' <> None /\
  st_results st' = None /\
  st_adapterErrors st' = [] /\
  viewItems (renderPage st') = [] /\
  viewNotice (renderPage st') = [].
Proof.
  exact (failed_attempt_clears_results serverError (lit "webcam") staleState
           (eq_refl : ok {| status := 500; json := Rejected OtherValue |} = false)).
Defined.

Lemma missing_field_defaults_to_empty_witness :
  200 <= 200 <= 299 /\
  let out := run (serverOk {| results_field := None; errors_field := None |})
                 (handleSearch (lit "headphones")) staleState in
  st_error out.1.2 = None /\
  st_results out.1.2 = Some [] /\
  st_adapterErrors out.1.2 = [].
Proof.
  assert (H1 : 200 <= 200 <= 299) by lia.
  split; [exact H1|].
  pose proof (missing_field_defaults_to_empty
                (serverOk {| results_field := None; errors_field := None |})
                (lit "headphones") staleState 200
                {| results_field := None; errors_field := None |} H1 eq_refl)
    as (_ & He & _ & Hr & Ha & _).
  split; [exact He|]. split; [exact (Hr eq_refl) | exact (Ha eq_refl)].
Defined.

Lemma total_failure_is_degraded_success_witness :
  failingRegistry <> [] /\
  trim paddedInput <> [] /\
  let response := search failingRegistry (trim paddedInput) in
  let st' := (run serverAllFailed (submitSearchForm paddedInput) initialState).1.2 in
  results response = [] /\
  errors response = [{| adapter := lit "Y"; error := lit "HTTP 403" |};
                     {| adapter := lit "Z"; error := lit "timeout" |}] /\
  st_error st' = None /\
  renderPage st'
  = EmptyPane (Some (renderNoticeLine <$> errors response))
              (NoResultsFound (lit "camera")).
Proof.
  assert (H1 : failingRegistry <> []) by discriminate.
  assert (H2 : trim paddedInput <> []) by (vm_compute; discriminate).
  assert (H3 : forall a, a ∈ failingRegistry ->
                 exists cause, outcomeOf (Search a (trim paddedInput)) = Failure cause).
  { intros a Ha.
    apply elem_of_cons in Ha as [->|Ha]; [eexists; reflexivity|].
    apply elem_of_cons in Ha as [->|Ha]; [eexists; reflexivity|].
    by apply elem_of_nil in Ha. }
  split; [exact H1|]. split; [exact H2|].
  pose proof (total_failure_is_degraded_success failingRegistry serverAllFailed
                paddedInput initialState H1 H2 H3 eq_refl)
    as (_ & Hr & _ & He & Hv).
  split; [exact Hr|]. split; [reflexivity|]. split; [exact He | exact Hv].
Defined.

Lemma search_request_shape_witness :
  Forall (fun c => 32 <= c /\ c <> 34 /\ c <> 92 /\
                   isLeadingSurrogate c = false /\
                   isTrailingSurrogate c = false) (lit "headphones") /\
  fetchCalls (run serverError (handleSearch (lit "headphones")) initialState).2
  = [(lit "/search", searchInit (lit "headphones"))] /\
  body (searchInit (lit "headphones"))
  = lit "{" ++ [34] ++ lit "query" ++ [34] ++ lit ":"
    ++ [34] ++ lit "headphones" ++ [34] ++ lit "}".
Proof.
  assert (H1 : Forall (fun c => 32 <= c /\ c <> 34 /\ c <> 92 /\
                                isLeadingSurrogate c = false /\
                                isTrailingSurrogate c = false)
                      (lit "headphones")).
  { apply (bool_decide_unpack _). vm_compute. exact I. }
  split; [exact H1|].
  pose proof (search_request_shape serverError (lit "headphones") initialState)
    as [Hcall Hbody].
  split; [exact Hcall | exact (Hbody H1)].
Defined.

(** * Further properties of the page *)

(** ** One attempt *)

(** X1. A completed search attempt overwrites all five state cells: what
    it leaves behind, its outcome and its calls are the same whatever the
    page held before. *)
Theorem attempt_forgets_prior_state network searchQuery st1 st2 :
  run network (handleSearch searchQuery) st1
  = run network (handleSearch searchQuery) st2.
Proof. by rewrite !run_handleSearch. Qed.

(** X2. Every exit of the [try] block is caught: whether [fetch] rejects,
    the status is not ok, [json()] rejects or the body is [null], the
    handler's promise is fulfilled, the loading flag is back to [false] and
    the query cell holds the string searched for. *)
Theorem attempt_always_settles network searchQuery st :
  let out := run network (handleSearch searchQuery) st in
  out.1.1 = Fulfilled tt /\
  st_loading out.1.2 = false /\
  st_query out.1.2 = searchQuery /\
  (st_error out.1.2 = None <-> st_results out.1.2 <> None).
Proof.
  cbv zeta. rewrite run_handleSearch. cbv zeta.
  destruct (network _ _) as [response|e]; [|by repeat split].
  destruct (ok response); [|by repeat split].
  destruct (json response) as [[message|o]|e]; by repeat split.
Qed.

(** X3. [json()] is called at most once per attempt, only on the response
    that [fetch] was fulfilled with, and only if that response is ok; on
    an ok response it is called, after the fetch. *)
Theorem json_called_only_on_ok_response network searchQuery st :
  let evs := (run network (handleSearch searchQuery) st).2 in
  (length (jsonCalls evs) <= 1)%nat /\
  (forall response, response ∈ jsonCalls evs ->
     network (lit "/search") (searchInit searchQuery) = Fulfilled response /\
     ok response = true) /\
  (forall response,
     network (lit "/search") (searchInit searchQuery) = Fulfilled response ->
     ok response = true ->
     evs = [FetchCall (lit "/search") (searchInit searchQuery); JsonCall response]).
Proof.
  cbv zeta. rewrite run_handleSearch. cbv zeta.
  destruct (network _ _) as [response|e].
  - destruct (ok response) eqn:Hok.
    + assert (forall r, r ∈ [response] -> Fulfilled response = Fulfilled r /\ ok r = true).
      { intros r Hr. apply list_elem_of_singleton in Hr as ->. done. }
      destruct (json response) as [[message|o]|e]; cbn [snd];
        (split; [simpl; lia|]); (split; [exact H|]); by intros r [= <-] _.
    + cbn [snd]. split; [simpl; lia|]. split.
      * intros r Hr. by apply elem_of_nil in Hr.
      * intros r [= <-] Hr. congruence.
  - cbn [snd]. split; [simpl; lia|]. split.
    + intros r Hr. by apply elem_of_nil in Hr.
    + done.
Qed.

(** X4. An ok response whose body cannot be used is handled like a failed
    request: when [json()] rejects, or the body parses to [null] so that
    reading [data.results] throws, results and adapter errors are cleared
    and the thrown error's message is recorded. *)
Theorem unusable_body_is_a_failure network searchQuery st response :
  network (lit "/search") (searchInit searchQuery) = Fulfilled response ->
  ok response = true ->
  (forall e, json response = Rejected e ->
     (run network (handleSearch searchQuery) st).1.2
     = failedState searchQuery (errorMessage e)) /\
  (forall message, json response = Fulfilled (NullBody message) ->
     (run network (handleSearch searchQuery) st).1.2
     = failedState searchQuery message).
Proof.
  intros Hnet Hok. rewrite run_handleSearch, Hnet. cbv zeta. rewrite Hok.
  split.
  - by intros e ->.
  - by intros message ->.
Qed.

(** X5. After a rejected [fetch] the pane is the alert with the error's
    message, or with "An unexpected error occurred" when the thrown value
    is not an [Error]; but an [Error] whose message is the empty string is
    stored as a falsy error, so no alert is rendered and the pane reads as
    a search without results. *)
Theorem rejected_fetch_rendering network searchQuery st e :
  network (lit "/search") (searchInit searchQuery) = Rejected e ->
  let view := renderPage (run network (handleSearch searchQuery) st).1.2 in
  (e = OtherValue -> view = ErrorAlert (lit "An unexpected error occurred")) /\
  (forall message, e = ErrorInstance message -> message <> [] ->
     view = ErrorAlert message) /\
  (e = ErrorInstance [] ->
     view = EmptyPane None (if truthy searchQuery then NoResultsFound searchQuery
                            else SearchPrompt)).
Proof.
  intros Hnet. cbv zeta. rewrite run_handleSearch, Hnet. cbv zeta. cbn [fst snd].
  split; [by intros ->|]. split.
  - intros message -> Hne. by destruct message.
  - by intros ->.
Qed.

(** X6. While the request is in flight the handler has set the query,
    raised the loading flag and cleared the error and the adapter errors;
    the results of the search before stay in the state, but the pane shows
    the loading status only. *)
Theorem in_flight_state searchQuery st :
  let st' := runUntilAwait (handleSearch searchQuery) st in
  st' = {| st_query := searchQuery; st_results := st_results st;
           st_loading := true; st_error := None; st_adapterErrors := [] |} /\
  renderPage st' = LoadingStatus.
Proof. done. Qed.

(** ** What the form dispatches *)

Lemma trimStart_split s :
  exists prefix, s = prefix ++ trimStart s /\
                 Forall (fun c => isWhiteSpace c = true) prefix.
Proof.
  induction s as [|x s (p & Hs & Hp)]; simpl; [by exists []|].
  destruct (isWhiteSpace x) eqn:E; [|by exists []].
  exists (x :: p). split; [simpl; by f_equal | by constructor].
Qed.

Lemma trim_split s :
  exists before after,
    s = before ++ trim s ++ after /\
    Forall (fun c => isWhiteSpace c = true) before /\
    Forall (fun c => isWhiteSpace c = true) after.
Proof.
  destruct (trimStart_split s) as (p & Hs & Hp).
  destruct (trimStart_split (reverse (trimStart s))) as (p' & Hr & Hp').
  exists p, (reverse p'). split; [|split; [done|]].
  - unfold trim, trimEnd. rewrite <- reverse_app, <- Hr, reverse_involutive.
    exact Hs.
  - by apply Forall_reverse.
Qed.

(** X7. A submission sends no request when the input is blank, and
    otherwise exactly one, for a query that is the input with white space
    removed from its two ends and nothing else: the query is not empty, it
    neither starts nor ends with white space, and trimming it again changes
    nothing. *)
Theorem dispatched_query_is_trimmed network inputValue st :
  let calls := fetchCalls (run network (submitSearchForm inputValue) st).2 in
  (calls = [] /\ Forall (fun c => isWhiteSpace c = true) inputValue) \/
  (exists q before after,
     calls = [(lit "/search", searchInit q)] /\
     inputValue = before ++ q ++ after /\
     Forall (fun c => isWhiteSpace c = true) before /\
     Forall (fun c => isWhiteSpace c = true) after /\
     q <> [] /\
     (forall c, head q = Some c -> isWhiteSpace c = false) /\
     (forall c, last q = Some c -> isWhiteSpace c = false) /\
     trim q = q).
Proof.
  cbv zeta. destruct (trim_split inputValue) as (before & after & Hs & Hb & Ha).
  destruct (trim inputValue) as [|c r] eqn:E.
  - left. unfold submitSearchForm. rewrite handleSubmit_blank by done.
    split; [done|]. rewrite Hs. simpl. by apply Forall_app.
  - right. exists (c :: r), before, after.
    unfold submitSearchForm. rewrite handleSubmit_search by (by rewrite E).
    rewrite run_perform, E. cbn [snd].
    change (fetchCalls (PreventDefault :: ?l)) with (fetchCalls l).
    rewrite handleSearch_fetchCalls.
    pose proof (trim_ends inputValue) as [H1 H2]. rewrite E in H1, H2.
    repeat split; try done.
    + by intros c' [= <-].
    + intros c'. rewrite <- head_reverse.
      destruct (reverse (c :: r)); [done|]. by intros [= <-].
    + rewrite <- E. apply trim_idempotent.
Qed.

(** ** React keys of the rendered items *)

Lemma hyphen_split (a a' b b' : jsstring) :
  45 ∉ a -> 45 ∉ a' -> a ++ 45 :: b = a' ++ 45 :: b' -> a = a' /\ b = b'.
Proof.
  revert a'. induction a as [|x a IH]; intros [|y a'] Ha Ha'; simpl.
  - by intros [= ->].
  - intros [= <- _]. destruct Ha'. by left.
  - intros [= -> _]. destruct Ha. by left.
  - intros [= -> Heq]. apply not_elem_of_cons in Ha as [_ Ha].
    apply not_elem_of_cons in Ha' as [_ Ha'].
    destruct (IH a' Ha Ha' Heq) as [-> ->]. done.
Qed.

(** X8. The list items are keyed by [retailer-sku].  When no retailer name
    contains a hyphen and no two results have the same (retailer, sku)
    pair, no two rendered items have the same key. *)
Theorem item_keys_unique query rs adapterErrors :
  NoDup ((fun r => (retailer r, sku r)) <$> rs) ->
  Forall (fun r => 45 ∉ retailer r) rs ->
  NoDup (item_key <$> viewItems (ResultsList query (Some rs) false None adapterErrors)).
Proof.
  intros Hnd Hhy.
  assert (viewItems (ResultsList query (Some rs) false None adapterErrors)
          = renderItem <$> rs) as -> by (by destruct rs).
  induction rs as [|r rs IH]; csimpl; [constructor|].
  apply NoDup_cons in Hnd as [Hr Hnd]. apply Forall_cons in Hhy as [Hh Hhy].
  constructor; [|by apply IH].
  intros Hin. apply list_elem_of_fmap in Hin as (i & Hk & Hi).
  apply list_elem_of_fmap in Hi as (r' & -> & Hr').
  apply Hr. apply list_elem_of_fmap. exists r'. split; [|done].
  rewrite Forall_forall in Hhy. specialize (Hhy r' Hr').
  unfold renderItem in Hk. cbn [item_key] in Hk.
  change (lit "-") with [45] in Hk. simpl in Hk.
  destruct (hyphen_split _ _ _ _ Hh Hhy Hk) as [-> ->]. done.
Qed.

(** X9. Without that condition the key does not tell results apart: two
    results whose retailer and sku differ only in where the hyphen between
    them falls get the same key. *)
Theorem item_keys_collide (a b c : jsstring) r1 r2 :
  retailer r1 = a ++ lit "-" ++ b -> sku r1 = c ->
  retailer r2 = a -> sku r2 = b ++ lit "-" ++ c ->
  (retailer r1, sku r1) <> (retailer r2, sku r2) /\
  item_key (renderItem r1) = item_key (renderItem r2).
Proof.
  intros Hr1 Hs1 Hr2 Hs2. split.
  - rewrite Hr1, Hr2. intros [= Heq _].
    apply (f_equal length) in Heq. rewrite !length_app in Heq. simpl in Heq. lia.
  - unfold renderItem. cbn [item_key]. rewrite Hr1, Hs1, Hr2, Hs2.
    by rewrite <- !app_assoc.
Qed.

(** ** Sessions *)

Lemma submitAndSettle_blank st inputValue network :
  trim inputValue = [] -> submitAndSettle st (inputValue, network) = st.
Proof.
  intros H. unfold submitAndSettle, submitSearchForm. cbn [fst snd].
  by rewrite handleSubmit_blank.
Qed.

Lemma submitAndSettle_search st inputValue network :
  trim inputValue <> [] ->
  submitAndSettle st (inputValue, network)
  = (run network (handleSearch (trim inputValue)) st).1.2.
Proof.
  intros H. unfold submitAndSettle, submitSearchForm. cbn [fst snd].
  rewrite handleSubmit_search by done. by rewrite run_perform.
Qed.

(** X10. Submissions made one after the other do not accumulate: a blank
    submission leaves the page as it was, and after a submission that is
    not blank the page is the one that this submission alone produces on a
    freshly mounted page. *)
Theorem session_keeps_last_search steps inputValue network :
  (trim inputValue = [] ->
     session (steps ++ [(inputValue, network)]) = session steps) /\
  (trim inputValue <> [] ->
     session (steps ++ [(inputValue, network)]) = session [(inputValue, network)]).
Proof.
  unfold session. rewrite foldl_app. cbn [foldl]. split; intros H.
  - by apply submitAndSettle_blank.
  - rewrite !submitAndSettle_search by done.
    by rewrite !run_handleSearch.
Qed.

(** X11. Between submissions the page is never loading, an error comes
    with no results and no adapter errors, results come with no error, the
    query cell is free of white space at its ends, and an empty query cell
    means that the page is still as it was mounted. *)
Theorem session_invariant steps :
  let st := session steps in
  st_loading st = false /\
  (st_error st <> None -> st_results st = None /\ st_adapterErrors st = []) /\
  (st_results st <> None -> st_error st = None) /\
  trim (st_query st) = st_query st /\
  (st_query st = [] -> st = initialState).
Proof.
  cbv zeta. induction steps as [|[inputValue network] steps IH] using rev_ind.
  { by repeat split. }
  unfold session in *. rewrite foldl_app. cbn [foldl].
  destruct (trim inputValue) as [|c r] eqn:E.
  { by rewrite submitAndSettle_blank. }
  rewrite submitAndSettle_search by (by rewrite E).
  pose proof (trim_idempotent inputValue) as Hidem. rewrite E in *.
  rewrite run_handleSearch. cbv zeta.
  destruct (network _ _) as [response|e]; [|by repeat split].
  destruct (ok response); [|by repeat split].
  destruct (json response) as [[message|o]|e]; by repeat split.
Qed.

(** ** The earlier component *)


(** ** Attempts that overlap *)

(** X12. Nothing ties a response to the latest search.  If a second search
    starts while the first is in flight, the first then fails and the
    second then succeeds, the failure of the first takes the loading status
    away while the second is still in flight, and in the end the cells hold
    the results of the second search together with the error of the first:
    the pane shows the alert and hides the results. *)
Theorem stale_failure_masks_newer_results q1 q2 st r1 r2 o :
  ok r1 = false -> ok r2 = true -> json r2 = Fulfilled (ObjectBody o) ->
  let first := advance (handleSearch q1) st in
  let second := advance (handleSearch q2) first.1 in
  let first' := advance (resumeFetch first.2 (Fulfilled r1)) second.1 in
  let second' := advance (resumeFetch second.2 (Fulfilled r2)) first'.1 in
  let second'' := advance (resumeJson second'.2) second'.1 in
  let message := lit "Search failed with status " ++ numberToString (status r1) in
  first'.2 = Return tt /\
  renderPage first'.1 = ErrorAlert message /\
  second''.2 = Return tt /\
  second''.1 = {| st_query := q2;
                  st_results := Some (or_empty (results_field o));
                  st_loading := false;
                  st_error := Some message;
                  st_adapterErrors := or_empty (errors_field o) |} /\
  renderPage second''.1 = ErrorAlert message.
Proof.
  intros Hr1 Hr2 Hjson. cbv zeta.
  unfold handleSearch.
  cbn -[lit searchInit numberToString ok].
  rewrite Hr1, Hr2.
  cbn -[lit searchInit numberToString ok].
  rewrite Hjson.
  cbn -[numberToString].
  done.
Qed.

(** ** The request body *)

Lemma unhexDigit_hexDigit d : d < 16 -> unhexDigit (hexDigit d) = d.
Proof.
  intros H. unfold unhexDigit, hexDigit.
  destruct (N.ltb_spec d 10).
  - destruct (N.ltb_spec (48 + d) 58); lia.
  - destruct (N.ltb_spec (87 + d) 58); lia.
Qed.

Lemma hex_recombine c :
  c < 65536 ->
  4096 * (c / 4096 mod 16) + 256 * (c / 256 mod 16) + 16 * (c / 16 mod 16)
  + c mod 16 = c.
Proof. intros H. zify. Z.to_euclidean_division_equations. lia. Qed.

Lemma unquote_unicodeEscape c rest :
  c < 65536 ->
  unquoteUnits (unicodeEscape c ++ rest) = c :: unquoteUnits rest.
Proof.
  intros H. unfold unicodeEscape.
  cbn -[N.mul N.add N.div N.modulo hexDigit unhexDigit].
  rewrite !unhexDigit_hexDigit by (apply N.mod_lt; lia).
  by rewrite hex_recombine.
Qed.

Lemma surrogate_is_code_unit c :
  isLeadingSurrogate c || isTrailingSurrogate c = true -> c < 65536.
Proof.
  unfold isLeadingSurrogate, isTrailingSurrogate.
  intros H. apply orb_true_iff in H as [H|H];
    apply andb_true_iff in H as [_ H]; apply N.leb_le in H; lia.
Qed.

Lemma unquote_quoteUnit c rest :
  unquoteUnits (quoteUnit c ++ rest) = c :: unquoteUnits rest.
Proof.
  unfold quoteUnit.
  repeat match goal with
         | |- context [if ?x =? ?y then _ else _] =>
             destruct (N.eqb_spec x y) as [->|?]; [done|]
         end.
  destruct (c <? 32) eqn:E32; simpl orb.
  - apply unquote_unicodeEscape. apply N.ltb_lt in E32. lia.
  - destruct (isLeadingSurrogate c || isTrailingSurrogate c) eqn:Es.
    + apply unquote_unicodeEscape. by apply surrogate_is_code_unit.
    + simpl. destruct (N.eqb_spec c 92); [done|]. done.
Qed.

Lemma unquote_quoteUnits_bounded n s :
  (length s <= n)%nat -> unquoteUnits (quoteUnits s) = s.
Proof.
  revert s. induction n as [|n IH]; intros [|c rest] Hlen;
    cbn [quoteUnits length] in *; try done; try lia.
  destruct (isLeadingSurrogate c) eqn:El.
  - assert (Hc : c < 65536) by (apply surrogate_is_code_unit; by rewrite El).
    assert (Hc92 : (c =? 92) = false).
    { apply N.eqb_neq. intros ->. done. }
    destruct rest as [|d rest'].
    + rewrite <- (app_nil_r (unicodeEscape c)).
      by rewrite unquote_unicodeEscape.
    + destruct (isTrailingSurrogate d) eqn:Et.
      * assert (Hd92 : (d =? 92) = false).
        { apply N.eqb_neq. intros ->. done. }
        cbn [unquoteUnits]. rewrite Hc92, Hd92.
        rewrite IH by (cbn [length] in Hlen; lia). done.
      * rewrite unquote_unicodeEscape by done.
        rewrite IH by lia. done.
  - rewrite unquote_quoteUnit, IH by lia. done.
Qed.

(** Reading back what [QuoteJSONString] wrote gives the string. *)
Lemma unquote_quoteUnits s : unquoteUnits (quoteUnits s) = s.
Proof. by apply (unquote_quoteUnits_bounded (length s)). Qed.

(** X14. The request body determines the query: the escapes that
    [JSON.stringify] writes can be read back, so two searches with the same
    body were searches for the same string. *)
Theorem request_body_determines_query q1 q2 :
  body (searchInit q1) = body (searchInit q2) -> q1 = q2.
Proof.
  unfold searchInit, JSON_stringify_query, QuoteJSONString. cbn [body].
  intros H. do 3 apply app_inv_head in H.
  apply app_inv_tail in H. apply app_inv_head in H. apply app_inv_tail in H.
  apply (f_equal unquoteUnits) in H. by rewrite !unquote_quoteUnits in H.
Qed.

(** ** The submit handler on the page *)


(** ** The further properties at the sample data *)

Lemma json_called_only_on_ok_response_witness :
  ok {| status := 200; json := Fulfilled (NullBody (lit "null body")) |} = true /\
  (run (fun _ _ => Fulfilled {| status := 200;
                               json := Fulfilled (NullBody (lit "null body")) |})
       (handleSearch (lit "webcam")) staleState).2
  = [FetchCall (lit "/search") (searchInit (lit "webcam"));
     JsonCall {| status := 200; json := Fulfilled (NullBody (lit "null body")) |}].
Proof.
  assert (H1 : ok {| status := 200; json := Fulfilled (NullBody (lit "null body")) |}
               = true) by reflexivity.
  split; [exact H1|].
  exact (proj2 (proj2 (json_called_only_on_ok_response
                         (fun _ _ => Fulfilled {| status := 200;
                                        json := Fulfilled (NullBody (lit "null body")) |})
                         (lit "webcam") staleState))
               _ eq_refl H1).
Defined.

Lemma unusable_body_is_a_failure_witness :
  ok {| status := 200; json := Rejected (ErrorInstance (lit "Unexpected token")) |}
  = true /\
  (run (fun _ _ => Fulfilled {| status := 200;
                               json := Rejected (ErrorInstance (lit "Unexpected token")) |})
       (handleSearch (lit "webcam")) staleState).1.2
  = failedState (lit "webcam") (lit "Unexpected token").
Proof.
  assert (H1 : ok {| status := 200;
                     json := Rejected (ErrorInstance (lit "Unexpected token")) |}
               = true) by reflexivity.
  split; [exact H1|].
  exact (proj1 (unusable_body_is_a_failure
                  (fun _ _ => Fulfilled {| status := 200;
                                 json := Rejected (ErrorInstance (lit "Unexpected token")) |})
                  (lit "webcam") staleState _ eq_refl H1)
               _ eq_refl).
Defined.

Lemma rejected_fetch_rendering_witness :
  renderPage (run (fun _ _ => Rejected (ErrorInstance []))
                  (handleSearch (lit "webcam")) staleState).1.2
  = EmptyPane None (NoResultsFound (lit "webcam")) /\
  renderPage (run (fun _ _ => Rejected (ErrorInstance (lit "Failed to fetch")))
                  (handleSearch (lit "webcam")) staleState).1.2
  = ErrorAlert (lit "Failed to fetch").
Proof.
  split.
  - exact (proj2 (proj2 (rejected_fetch_rendering
                           (fun _ _ => Rejected (ErrorInstance []))
                           (lit "webcam") staleState _ eq_refl))
                 eq_refl).
  - assert (H : lit "Failed to fetch" <> []) by (vm_compute; discriminate).
    exact (proj1 (proj2 (rejected_fetch_rendering
                           (fun _ _ => Rejected (ErrorInstance (lit "Failed to fetch")))
                           (lit "webcam") staleState _ eq_refl))
                 _ eq_refl H).
Defined.

Lemma item_keys_unique_witness :
  NoDup ((fun r => (retailer r, sku r))
           <$> [sampleQuote "A" "1" 90; sampleQuote "B" "0" 90]) /\
  Forall (fun r => 45 ∉ retailer r) [sampleQuote "A" "1" 90; sampleQuote "B" "0" 90] /\
  NoDup (item_key <$> viewItems
           (ResultsList (lit "headphones")
              (Some [sampleQuote "A" "1" 90; sampleQuote "B" "0" 90]) false None [])).
Proof.
  assert (H1 : NoDup ((fun r => (retailer r, sku r))
                        <$> [sampleQuote "A" "1" 90; sampleQuote "B" "0" 90])).
  { apply (bool_decide_unpack _). vm_compute. exact I. }
  assert (H2 : Forall (fun r => 45 ∉ retailer r)
                      [sampleQuote "A" "1" 90; sampleQuote "B" "0" 90]).
  { apply (bool_decide_unpack _). vm_compute. exact I. }
  split; [exact H1|]. split; [exact H2|].
  exact (item_keys_unique (lit "headphones") _ [] H1 H2).
Defined.

Lemma item_keys_collide_witness :
  (retailer (sampleQuote "a-b" "c" 90), sku (sampleQuote "a-b" "c" 90))
  <> (retailer (sampleQuote "a" "b-c" 95), sku (sampleQuote "a" "b-c" 95)) /\
  item_key (renderItem (sampleQuote "a-b" "c" 90))
  = item_key (renderItem (sampleQuote "a" "b-c" 95)).
Proof.
  exact (item_keys_collide (lit "a") (lit "b") (lit "c")
           (sampleQuote "a-b" "c" 90) (sampleQuote "a" "b-c" 95)
           eq_refl eq_refl eq_refl eq_refl).
Defined.

Lemma session_keeps_last_search_witness :
  trim blankInput = [] /\
  trim paddedInput <> [] /\
  session [(paddedInput, serverError); (blankInput, serverAllFailed)]
  = session [(paddedInput, serverError)] /\
  session [(paddedInput, serverError); (paddedInput, serverAllFailed)]
  = session [(paddedInput, serverAllFailed)].
Proof.
  assert (H1 : trim blankInput = []) by (vm_compute; reflexivity).
  assert (H2 : trim paddedInput <> []) by (vm_compute; discriminate).
  split; [exact H1|]. split; [exact H2|]. split.
  - exact (proj1 (session_keeps_last_search [(paddedInput, serverError)]
                    blankInput serverAllFailed) H1).
  - exact (proj2 (session_keeps_last_search [(paddedInput, serverError)]
                    paddedInput serverAllFailed) H2).
Defined.

Lemma stale_failure_masks_newer_results_witness :
  let r1 := {| status := 500; json := Rejected OtherValue |} in
  let o := {| results_field := Some [sampleQuote "A" "1" 90]; errors_field := None |} in
  let r2 := {| status := 200; json := Fulfilled (ObjectBody o) |} in
  let first := advance (handleSearch (lit "webcam")) initialState in
  let second := advance (handleSearch (lit "camera")) first.1 in
  let first' := advance (resumeFetch first.2 (Fulfilled r1)) second.1 in
  let second' := advance (resumeFetch second.2 (Fulfilled r2)) first'.1 in
  let second'' := advance (resumeJson second'.2) second'.1 in
  st_results second''.1 = Some [sampleQuote "A" "1" 90] /\
  renderPage second''.1 = ErrorAlert (lit "Search failed with status 500").
Proof.
  pose proof (stale_failure_masks_newer_results (lit "webcam") (lit "camera")
                initialState
                {| status := 500; json := Rejected OtherValue |}
                {| status := 200;
                   json := Fulfilled (ObjectBody
                             {| results_field := Some [sampleQuote "A" "1" 90];
                                errors_field := None |}) |}
                {| results_field := Some [sampleQuote "A" "1" 90];
                   errors_field := None |}
                eq_refl eq_refl eq_refl) as (_ & _ & _ & Hst & Hview).
  cbv zeta in *. split; [by rewrite Hst | exact Hview].
Defined.

Lemma request_body_determines_query_witness :
  body (searchInit (lit "camera")) = body (searchInit (trim paddedInput)) /\
  lit "camera" = trim paddedInput.
Proof.
  assert (H : body (searchInit (lit "camera")) = body (searchInit (trim paddedInput)))
    by (vm_compute; reflexivity).
  split; [exact H|].
  exact (request_body_determines_query (lit "camera") (trim paddedInput) H).
Defined.
